(** * subprocess.run: pipelines of child processes as one string-like value

    A shallow embedding of [run/__init__.py]: the [std_output] string
    helpers, the [run] class (process creation, pipeline construction, the
    lazy [status] / [stdout] / [stderr] properties, [check_returncode] and
    [__repr__]), over an explicit model of the part of Python's
    [subprocess], [shlex] and [os] modules that the code calls.

    Python text is modelled as [string] (ASCII text, with the white space
    of Python 3); the Python value [None] is the [None] of an [option].
    The objects the code shares and mutates live in a store: the [Popen]
    objects, the [run] objects and the list objects, each referred to by
    its index. The code runs in a monad of state over that store with
    exceptions. *)

From Stdlib Require Import ZArith String Ascii List Lia.
From stdpp Require Import base option list strings gmap.

Local Open Scope string_scope.
Local Open Scope Z_scope.

(** ** Python text primitives used by the code *)

Module pystr.

(** The line feed, written ["\n"] in the source. *)
Definition LF : ascii := ascii_of_nat 10.

(** [str.isspace] on one ASCII character: tab, line feed, vertical tab,
    form feed, carriage return, the four separators 0x1c-0x1f, space. *)
Definition is_space (c : ascii) : bool :=
  let n := nat_of_ascii c in
  ((9 <=? n)%nat && (n <=? 13)%nat) || ((28 <=? n)%nat && (n <=? 32)%nat).

(** [s.split(sep)] for a one-character separator: the fields between
    the separators, empty fields included; never the empty list. *)
Fixpoint split (sep : ascii) (s : string) : list string :=
  match s with
  | EmptyString => [EmptyString]
  | String c s' =>
      if Ascii.eqb c sep then EmptyString :: split sep s'
      else match split sep s' with
           | [] => [String c EmptyString]
           | w :: ws => String c w :: ws
           end
  end.

Definition cons_field (w : string) (ws : list string) : list string :=
  match w with
  | EmptyString => ws
  | _ => w :: ws
  end.

(** The field that starts at the head of [s] (empty when [s] starts with
    white space) and the non-empty fields after it. *)
Fixpoint fields (s : string) : string * list string :=
  match s with
  | EmptyString => (EmptyString, [])
  | String c s' =>
      let '(w, ws) := fields s' in
      if is_space c then (EmptyString, cons_field w ws) else (String c w, ws)
  end.

(** [s.split()]: the maximal runs of characters that are not white
    space. *)
Definition split_ws (s : string) : list string :=
  let '(w, ws) := fields s in cons_field w ws.

(** [sep.join(l)]. *)
Fixpoint join (sep : string) (l : list string) : string :=
  match l with
  | [] => EmptyString
  | [x] => x
  | x :: rest => x +:+ sep +:+ join sep rest
  end.

Definition contains (c : ascii) (s : string) : bool :=
  existsb (Ascii.eqb c) (list_ascii_of_string s).

Definition hex_digit (n : nat) : ascii :=
  if (n <? 10)%nat then ascii_of_nat (48 + n) else ascii_of_nat (87 + n).

Definition backslash : ascii := ascii_of_nat 92.
Definition dquote : ascii := ascii_of_nat 34.
Definition squote : ascii := ascii_of_nat 39.

(** One character of [repr(s)] inside the quotes [q]. *)
Definition repr_char (q c : ascii) : string :=
  let n := nat_of_ascii c in
  if Ascii.eqb c backslash || Ascii.eqb c q then String backslash (String c EmptyString)
  else if (n =? 9)%nat then String backslash "t"
  else if (n =? 10)%nat then String backslash "n"
  else if (n =? 13)%nat then String backslash "r"
  else if (n <? 32)%nat || (126 <? n)%nat then
    String backslash (String "x" (String (hex_digit (n / 16)) (String (hex_digit (n mod 16)) EmptyString)))
  else String c EmptyString.

(** [repr(s)] of a string: single quotes, unless the text has a single
    quote and no double quote. *)
Definition repr (s : string) : string :=
  let q := if contains squote s && negb (contains dquote s) then dquote else squote in
  String q (String.concat EmptyString (map (repr_char q) (list_ascii_of_string s)))
    +:+ String q EmptyString.

(** [str(l)] of a list of strings. *)
Definition str_of_list (l : list string) : string :=
  "[" +:+ join ", " (map repr l) +:+ "]".

(** [str(x)] where [x] is a string or [None]. *)
Definition str_of_optional (x : option string) : string :=
  match x with
  | Some s => s
  | None => "None"
  end.

End pystr.

(** ** [class std_output(str)] *)

Module std_output.

(** [std_output(x)]: the string made from the argument. *)
Definition new (x : option string) : string := pystr.str_of_optional x.

(** [lines]: [self.split("\n")]. *)
Definition lines (self : string) : list string := pystr.split pystr.LF self.

(** [qlines]: [[line.split() for line in self.split("\n")]]. *)
Definition qlines (self : string) : list (list string) :=
  map pystr.split_ws (pystr.split pystr.LF self).

End std_output.

(** ** Values shared by the host model and the library *)

(** A command specification: a shell-syntax string, or a sequence of
    tokens. *)
Inductive Command :=
| CmdStr (s : string)
| CmdSeq (tokens : list string).

Inductive std_fd := fd_stdin | fd_stdout | fd_stderr.

(** File objects: [sys.stdin], the parent's end of a pipe to one of the
    standard streams of the child with a given handle, any other file the
    caller owns. *)
Inductive file :=
| sys_stdin
| pipe_end (child : nat) (fd : std_fd)
| other_file (id : nat).

(** What can be passed as [stdin=], [stdout=] or [stderr=] besides [None]:
    [subprocess.PIPE] or a file object. [None] (inherit the parent's
    stream) is [None : option redirect]. *)
Inductive redirect :=
| PIPE
| File (f : file).

(** Exceptions. [DanglingReference] is not a Python exception: it is the
    result of following a reference that is not in the store, which no
    world built by the code contains. *)
Inductive exn :=
| ValueError (msg : string)
| OSError (msg : string)
| UnboundLocalError (name : string)
| AttributeError (name : string)
| CalledProcessError (returncode : option Z) (cmd : Command)
| DanglingReference.

(** What the standard library and the operating system can raise. *)
Inductive host_error :=
| HostValueError (msg : string)
| HostOSError (msg : string).

Definition of_host (e : host_error) : exn :=
  match e with
  | HostValueError msg => ValueError msg
  | HostOSError msg => OSError msg
  end.

(** The arguments of one [subprocess.Popen(...)] call. *)
Record PopenArgs := {
  a_args : list string;
  a_universal_newlines : bool;
  a_shell : bool;
  a_cwd : option string;
  a_env : gmap string string;
  a_stdin : option redirect;
  a_bufsize : Z;
  a_stdout : option redirect;
  a_stderr : option redirect
}.

(** What a started child does: its process id, the text it writes to its
    standard output and standard error, its exit code. *)
Record Child := {
  child_pid : nat;
  child_stdout : string;
  child_stderr : string;
  child_exit : Z
}.

(** The host: the ambient environment, [shlex.split], process creation
    (for the n-th [Popen] of this world), and whether the k-th
    [communicate()] call on a given process raises. *)
Record Host := {
  os_environ : gmap string string;
  shlex_split : string -> host_error + list string;
  spawn : nat -> PopenArgs -> host_error + Child;
  communicate_fault : nat -> nat -> option host_error
}.

(** ** [subprocess.Popen] objects *)

Module subprocess.

(** The attributes of a [Popen] object: [stdin], [stdout], [stderr] are
    the parent's pipe ends, [None] unless the stream was requested as
    [PIPE]; [returncode] is [None] until the child has been waited for.
    [communicated] counts the [communicate()] calls made on the
    object. *)
Record PopenObject := {
  args : PopenArgs;
  stdin : option file;
  stdout : option file;
  stderr : option file;
  pid : nat;
  returncode : option Z;
  child : Child;
  communicated : nat
}.

Definition pipe_attr (h : nat) (fd : std_fd) (r : option redirect) : option file :=
  match r with
  | Some PIPE => Some (pipe_end h fd)
  | _ => None
  end.

Definition started (h : nat) (a : PopenArgs) (c : Child) : PopenObject :=
  {| args := a;
     stdin := pipe_attr h fd_stdin (a_stdin a);
     stdout := pipe_attr h fd_stdout (a_stdout a);
     stderr := pipe_attr h fd_stderr (a_stderr a);
     pid := child_pid c;
     returncode := None;
     child := c;
     communicated := 0 |}.

Definition called (p : PopenObject) : PopenObject :=
  {| args := args p; stdin := stdin p; stdout := stdout p; stderr := stderr p;
     pid := pid p; returncode := returncode p; child := child p;
     communicated := S (communicated p) |}.

Definition waited (p : PopenObject) : PopenObject :=
  {| args := args p; stdin := stdin p; stdout := stdout p; stderr := stderr p;
     pid := pid p; returncode := Some (child_exit (child p)); child := child p;
     communicated := communicated p |}.

(** The data [communicate()] returns for one stream: the text read from
    the pipe, [None] when the stream is not a pipe. *)
Definition captured (attr : option file) (text : string) : option string :=
  match attr with
  | Some _ => Some text
  | None => None
  end.

End subprocess.

(** ** The store *)

(** A [run] object: the text it holds as a [str], and its attributes.
    [process] is the handle of a [Popen] object and [chain] the address of
    a list object. [chain] and [_status] are [None] while the object has
    no attribute of that name. *)
Record RunObj := {
  text : string;
  process : nat;
  pid : nat;
  command : Command;
  chain : option nat;
  _status : option (option Z)
}.

(** The world: the host, the [Popen] objects by handle, the [run] objects
    by address, and the Python list objects (lists of addresses of [run]
    objects) by address. *)
Record World := {
  host : Host;
  processes : list subprocess.PopenObject;
  objects : list RunObj;
  lists : list (list nat)
}.

Definition with_processes (ps : list subprocess.PopenObject) (w : World) : World :=
  {| host := host w; processes := ps; objects := objects w; lists := lists w |}.

Definition with_objects (os : list RunObj) (w : World) : World :=
  {| host := host w; processes := processes w; objects := os; lists := lists w |}.

Definition with_lists (ls : list (list nat)) (w : World) : World :=
  {| host := host w; processes := processes w; objects := objects w; lists := ls |}.

(** ** Computations: a state over the world, with exceptions

    An exception keeps the world as it was when it was raised. *)

Definition M (A : Type) : Type := World -> (exn + A) * World.

Definition ret {A} (x : A) : M A := fun w => (inr x, w).

Definition raise {A} (e : exn) : M A := fun w => (inl e, w).

Definition bind {A B} (m : M A) (k : A -> M B) : M B :=
  fun w => match m w with
           | (inl e, w') => (inl e, w')
           | (inr x, w') => k x w'
           end.

#[global] Instance M_ret : MRet M := @ret.
#[global] Instance M_bind : MBind M := fun A B k m => bind m k.

Definition get_host : M Host := fun w => (inr (host w), w).

Definition get_process (h : nat) : M subprocess.PopenObject :=
  fun w => match processes w !! h with
           | Some p => (inr p, w)
           | None => (inl DanglingReference, w)
           end.

Definition set_process (h : nat) (p : subprocess.PopenObject) : M unit :=
  fun w => (inr tt, with_processes (<[h := p]> (processes w)) w).

Definition new_process (mk : nat -> host_error + subprocess.PopenObject) : M nat :=
  fun w => let h := length (processes w) in
           match mk h with
           | inl e => (inl (of_host e), w)
           | inr p => (inr h, with_processes (processes w ++ [p]) w)
           end.

Definition get_object (a : nat) : M RunObj :=
  fun w => match objects w !! a with
           | Some o => (inr o, w)
           | None => (inl DanglingReference, w)
           end.

Definition set_object (a : nat) (o : RunObj) : M unit :=
  fun w => (inr tt, with_objects (<[a := o]> (objects w)) w).

Definition new_object (mk : nat -> RunObj) : M nat :=
  fun w => let a := length (objects w) in
           (inr a, with_objects (objects w ++ [mk a]) w).

Definition get_list (a : nat) : M (list nat) :=
  fun w => match lists w !! a with
           | Some l => (inr l, w)
           | None => (inl DanglingReference, w)
           end.

Definition set_list (a : nat) (l : list nat) : M unit :=
  fun w => (inr tt, with_lists (<[a := l]> (lists w)) w).

Definition new_list (l : list nat) : M nat :=
  fun w => (inr (length (lists w)), with_lists (lists w ++ [l]) w).

Definition lift_host {A} (r : host_error + A) : M A :=
  match r with
  | inl e => raise (of_host e)
  | inr x => ret x
  end.

Module Import subprocess_calls.

(** [subprocess.Popen(args, universal_newlines=..., ...)]: starts the
    child, or raises what the host raises. *)
Definition Popen (a : PopenArgs) : M nat :=
  h ← get_host;
  new_process (fun n => match spawn h n a with
                        | inl e => inl e
                        | inr c => inr (subprocess.started n a c)
                        end).

(** [p.communicate()]: drains the pipes, waits for the child and returns
    the pair of the captured texts. Every call is counted, whether it
    raises or not. *)
Definition communicate (p : nat) : M (option string * option string) :=
  h ← get_host;
  o ← get_process p;
  set_process p (subprocess.called o);;
  match communicate_fault h p (subprocess.communicated o) with
  | Some e => raise (of_host e)
  | None =>
      set_process p (subprocess.waited (subprocess.called o));;
      mret (subprocess.captured (subprocess.stdout o) (child_stdout (subprocess.child o)),
            subprocess.captured (subprocess.stderr o) (child_stderr (subprocess.child o)))
  end.

(** Reading the attributes [p.stdout], [p.pid], [p.returncode]. *)
Definition stdout_of (p : nat) : M (option file) :=
  o ← get_process p; mret (subprocess.stdout o).

Definition pid_of (p : nat) : M nat :=
  o ← get_process p; mret (subprocess.pid o).

Definition returncode_of (p : nat) : M (option Z) :=
  o ← get_process p; mret (subprocess.returncode o).

End subprocess_calls.

(** ** Python lists *)

Module pylist.

(** [l.append(x)]: the list object itself grows. *)
Definition append (l x : nat) : M unit :=
  xs ← get_list l; set_list l (xs ++ [x]).

(** [l[:]]: a new list object with the same elements. *)
Definition copy (l : nat) : M nat :=
  xs ← get_list l; new_list xs.

End pylist.

(** ** [class run] *)

(** The keyword arguments [create_process] looks at, each [None] when the
    key is absent: [stdout=] and [stderr=]. *)
Record StreamKwargs := {
  kw_stdout : option (option redirect);
  kw_stderr : option (option redirect)
}.

Definition no_kwargs : StreamKwargs := {| kw_stdout := None; kw_stderr := None |}.

(** The keyword arguments [run(...)] looks at, each [None] when the key is
    absent: [env=], [cwd=], [shell=], [stdin=]. *)
Record RunKwargs := {
  kw_env : option (gmap string string);
  kw_cwd : option string;
  kw_shell : option bool;
  kw_stdin : option (option redirect)
}.

Definition defaults : RunKwargs :=
  {| kw_env := None; kw_cwd := None; kw_shell := None; kw_stdin := None |}.

Module runmeta.

(** The class property [run.stdin]: [sys.stdin]. *)
Definition stdin : redirect := File sys_stdin.

End runmeta.

Module run.

(** The list of tokens [Popen] receives: [shlex.split(command)] for a
    string, the sequence itself otherwise. *)
Definition tokens_of (command : Command) : M (list string) :=
  match command with
  | CmdStr s => h ← get_host; lift_host (shlex_split h s)
  | CmdSeq l => mret l
  end.

(** [create_process(cls, command, stdin, cwd, env, shell,
    capture_output=False, **kwargs)]. *)
Definition create_process (command : Command) (stdin : option redirect)
    (cwd : option string) (env : gmap string string) (shell : bool)
    (capture_output : bool) (kwargs : StreamKwargs) : M nat :=
  extra_args ←
    (if capture_output then
       if bool_decide (is_Some (kw_stdout kwargs)) || bool_decide (is_Some (kw_stderr kwargs))
       then raise (ValueError "capture_output will override stdout/stderr kwargs")
       else mret {| kw_stdout := Some (Some PIPE); kw_stderr := Some (Some PIPE) |}
     else mret kwargs);
  argv ← tokens_of command;
  Popen {| a_args := argv;
           a_universal_newlines := true;
           a_shell := shell;
           a_cwd := cwd;
           a_env := env;
           a_stdin := stdin;
           a_bufsize := 0;
           a_stdout := default None (kw_stdout extra_args);
           a_stderr := default None (kw_stderr extra_args) |}.

(** The text a new [run] object holds: [str.__new__(run, command)]. *)
Definition text_of (command : Command) : string :=
  match command with
  | CmdStr s => s
  | CmdSeq l => pystr.str_of_list l
  end.

(** The local variables of [__new__] that the loop assigns: [stdin] and
    [obj] ([None] while [obj] is not assigned). *)
Record Locals := {
  l_stdin : option redirect;
  l_obj : option nat
}.

(** [obj.chain = c]. *)
Definition set_chain (obj c : nat) : M unit :=
  o ← get_object obj;
  set_object obj {| text := text o; process := process o; pid := pid o;
                    command := command o; chain := Some c; _status := _status o |}.

(** The loop of [__new__] over the remaining commands; [chain] is the
    list object of the local variable of that name. Each round starts a
    process, takes its [stdout] attribute as the next [stdin], makes the
    object and sets its [process], [pid] and [command], appends it to
    [chain], and sets its [chain] to a copy of that list. The result is the
    state of the local variables after the loop. *)
Fixpoint new_loop (cwd : option string) (env : gmap string string) (shell : bool)
    (chain : nat) (args : list Command) (l : Locals) : M Locals :=
  match args with
  | [] => mret l
  | command :: rest =>
      process ← create_process command (l_stdin l) cwd env shell false no_kwargs;
      out ← stdout_of process;
      pid ← pid_of process;
      obj ← new_object (fun _ =>
              {| text := text_of command;
                 process := process;
                 pid := pid;
                 command := command;
                 chain := None;
                 _status := None |});
      pylist.append chain obj;;
      snapshot ← pylist.copy chain;
      set_chain obj snapshot;;
      new_loop cwd env shell chain rest {| l_stdin := File <$> out; l_obj := Some obj |}
  end.

(** The local variables when the loop starts: [stdin =
    kwargs.get('stdin', subprocess.PIPE)], [obj] not assigned. *)
Definition initial (kwargs : RunKwargs) : Locals :=
  {| l_stdin := default (Some PIPE) (kw_stdin kwargs); l_obj := None |}.

(** [env = dict(os.environ); env.update(kwargs.get('env', {}))]. *)
Definition merged_env (h : Host) (kwargs : RunKwargs) : gmap string string :=
  default ∅ (kw_env kwargs) ∪ os_environ h.

(** [__new__(cls, *args, **kwargs)]. *)
Definition __new__ (args : list Command) (kwargs : RunKwargs) : M nat :=
  h ← get_host;
  let env := merged_env h kwargs in
  let cwd := kw_cwd kwargs in
  let shell := default false (kw_shell kwargs) in
  chain ← new_list [];
  l ← new_loop cwd env shell chain args (initial kwargs);
  match l_obj l with
  | Some obj => mret obj
  | None => raise (UnboundLocalError "obj")
  end.

(** The property [status]. *)
Definition status (self : nat) : M (option Z) :=
  o ← get_object self;
  match _status o with
  | None =>
      communicate (process o);;
      rc ← returncode_of (process o);
      set_object self {| text := text o; process := process o; pid := pid o;
                         command := command o; chain := chain o;
                         _status := Some rc |};;
      mret rc
  | Some s => mret s
  end.

(** The property [returncode]. *)
Definition returncode (self : nat) : M (option Z) := status self.

(** [check_returncode(self)]. *)
Definition check_returncode (self : nat) : M unit :=
  rc ← returncode self;
  if bool_decide (rc ≠ Some 0) then
    rc' ← returncode self;
    o ← get_object self;
    raise (CalledProcessError rc' (command o))
  else mret tt.

(** The property [stdout]. *)
Definition stdout (self : nat) : M string :=
  o ← get_object self;
  r ← communicate (process o);
  mret (std_output.new (fst r)).

(** The property [stderr]. *)
Definition stderr (self : nat) : M string :=
  o ← get_object self;
  r ← communicate (process o);
  mret (std_output.new (snd r)).

(** The display string of one command in [__repr__]. *)
Definition display (c : Command) : string :=
  match c with
  | CmdStr s => s
  | CmdSeq l => pystr.join " " l
  end.

Fixpoint commands_of (chain : list nat) : M (list Command) :=
  match chain with
  | [] => mret []
  | e :: rest =>
      o ← get_object e;
      cs ← commands_of rest;
      mret (command o :: cs)
  end.

(** [__repr__(self)]. *)
Definition __repr__ (self : nat) : M string :=
  o ← get_object self;
  chain ← match chain o with
          | Some c => get_list c
          | None => raise (AttributeError "chain")
          end;
  cs ← commands_of chain;
  mret (pystr.join " | " (display <$> cs)).

End run.

(** ** A small host to run the code on

    [shlex.split] in POSIX mode without comments, and a machine that knows
    [echo], [true] and [false]. *)

Module demo.

(** The states of the tokeniser: between tokens, in a word, in a quoted
    part, after a backslash (met in a word, or in the quoted part [from]). *)
Inductive lex_state :=
| LexSpace
| LexWord
| LexQuote (q : ascii)
| LexEscape (from : option ascii).

Definition is_blank (c : ascii) : bool :=
  let n := nat_of_ascii c in
  (n =? 32)%nat || (n =? 9)%nat || (n =? 13)%nat || (n =? 10)%nat.

Definition is_quote (c : ascii) : bool :=
  Ascii.eqb c pystr.squote || Ascii.eqb c pystr.dquote.

Definition emit (token : string) (quoted : bool) (rest : host_error + list string)
    : host_error + list string :=
  match rest with
  | inl e => inl e
  | inr ts => inr (match token with
                   | EmptyString => if quoted then token :: ts else ts
                   | _ => token :: ts
                   end)
  end.

Definition push (token : string) (c : ascii) : string :=
  token +:+ String c EmptyString.

(** The tokens of [s] from the state [st], [token] being the token read so
    far and [quoted] whether a quoted part has contributed to it. *)
Fixpoint lex (s : string) (st : lex_state) (token : string) (quoted : bool)
    : host_error + list string :=
  match s with
  | EmptyString =>
      match st with
      | LexSpace => inr []
      | LexWord => emit token quoted (inr [])
      | LexQuote _ => inl (HostValueError "No closing quotation")
      | LexEscape _ => inl (HostValueError "No escaped character")
      end
  | String c s' =>
      match st with
      | LexSpace =>
          if is_blank c then lex s' LexSpace EmptyString false
          else if Ascii.eqb c pystr.backslash then lex s' (LexEscape None) EmptyString false
          else if is_quote c then lex s' (LexQuote c) EmptyString true
          else lex s' LexWord (String c EmptyString) false
      | LexWord =>
          if is_blank c then emit token quoted (lex s' LexSpace EmptyString false)
          else if is_quote c then lex s' (LexQuote c) token true
          else if Ascii.eqb c pystr.backslash then lex s' (LexEscape None) token quoted
          else lex s' LexWord (push token c) quoted
      | LexQuote q =>
          if Ascii.eqb c q then lex s' LexWord token true
          else if Ascii.eqb c pystr.backslash && Ascii.eqb q pystr.dquote
               then lex s' (LexEscape (Some q)) token true
          else lex s' (LexQuote q) (push token c) true
      | LexEscape None => lex s' LexWord (push token c) quoted
      | LexEscape (Some q) =>
          if Ascii.eqb c pystr.backslash || Ascii.eqb c q
          then lex s' (LexQuote q) (push token c) quoted
          else lex s' (LexQuote q) (push (push token pystr.backslash) c) quoted
      end
  end.

Definition posix_split (s : string) : host_error + list string :=
  lex s LexSpace EmptyString false.

Definition machine (n : nat) (a : PopenArgs) : host_error + Child :=
  match a_args a with
  | "echo" :: words =>
      inr {| child_pid := 4000 + n;
             child_stdout := pystr.join " " words +:+ String pystr.LF EmptyString;
             child_stderr := EmptyString;
             child_exit := 0 |}
  | ["true"] =>
      inr {| child_pid := 4000 + n; child_stdout := EmptyString;
             child_stderr := EmptyString; child_exit := 0 |}
  | ["false"] =>
      inr {| child_pid := 4000 + n; child_stdout := EmptyString;
             child_stderr := EmptyString; child_exit := 1 |}
  | _ => inl (HostOSError "No such file or directory")
  end.

Definition os : Host :=
  {| os_environ := {[ "PATH" := "/usr/bin:/bin" ]};
     shlex_split := posix_split;
     spawn := machine;
     communicate_fault := fun _ _ => None |}.

(** The world before anything has run. *)
Definition world : World :=
  {| host := os; processes := []; objects := []; lists := [] |}.

(** The worlds after [run('echo hello')], [run('false')],
    [run('echo hello', 'true')] and
    [run('echo hello', ['echo', 'x'], 'false')], each from [world]. *)
Definition echo_hello : World :=
  snd (run.__new__ [CmdStr "echo hello"] defaults world).

Definition exits_1 : World :=
  snd (run.__new__ [CmdStr "false"] defaults world).

Definition two_stage : World :=
  snd (run.__new__ [CmdStr "echo hello"; CmdStr "true"] defaults world).

Definition pipeline : list Command :=
  [CmdStr "echo hello"; CmdSeq ["echo"; "x"]; CmdStr "false"].

Definition piped : World := snd (run.__new__ pipeline defaults world).

End demo.

Local Close Scope Z_scope.
Local Open Scope list_scope.

(** ** Observations on worlds, used to state the properties *)

(** How many times [communicate()] has been called on the process [p]. *)
Definition communicate_calls (w : World) (p : nat) : option nat :=
  subprocess.communicated <$> processes w !! p.

(** An object whose [_status], when set, holds an integer. *)
Definition status_ok (o : RunObj) : bool :=
  match _status o with
  | Some None => false
  | _ => true
  end.

(** Every cached status in the world is an integer. *)
Definition statuses_ok (w : World) : bool := forallb status_ok (objects w).

(** The tokens [Popen] receives for a command. *)
Definition tokens (h : Host) (c : Command) : host_error + list string :=
  match c with
  | CmdStr s => shlex_split h s
  | CmdSeq l => inr l
  end.

(** The [Popen] arguments [__new__] launches a stage with: nothing is passed
    for [stdout] and [stderr]. *)
Definition stage_args (argv : list string) (stdin : option redirect)
    (cwd : option string) (env : gmap string string) (shell : bool) : PopenArgs :=
  {| a_args := argv; a_universal_newlines := true; a_shell := shell; a_cwd := cwd;
     a_env := env; a_stdin := stdin; a_bufsize := 0; a_stdout := None; a_stderr := None |}.

(** The object [__new__] makes for a stage, once its [chain] is set to the
    list object [snapshot]. *)
Definition stage_object (c : Command) (p pid snapshot : nat) : RunObj :=
  {| text := run.text_of c; process := p; pid := pid; command := c;
     chain := Some snapshot; _status := None |}.

(** The three reads of a result, and a sequence of them on one object,
    each result dropped. *)
Inductive Read := ReadStatus | ReadStdout | ReadStderr.

Definition read (r : Read) (self : nat) : M unit :=
  match r with
  | ReadStatus => run.status self;; mret tt
  | ReadStdout => run.stdout self;; mret tt
  | ReadStderr => run.stderr self;; mret tt
  end.

Fixpoint reads (rs : list Read) (self : nat) (w : World) : World :=
  match rs with
  | [] => w
  | r :: rest => reads rest self (snd (read r self w))
  end.

(** The world after a [communicate()] call on [p] that found the object
    [o]: the call is counted, and the child is waited for unless the call
    raised. *)
Definition after_communicate (w : World) (p : nat) (o : subprocess.PopenObject) : World :=
  match communicate_fault (host w) p (subprocess.communicated o) with
  | Some _ => with_processes (<[p := subprocess.called o]> (processes w)) w
  | None => with_processes (<[p := subprocess.waited (subprocess.called o)]> (processes w)) w
  end.

(** The object [o] with [_status] set to [rc]. *)
Definition cache_status (o : RunObj) (rc : option Z) : RunObj :=
  {| text := text o; process := process o; pid := pid o; command := command o;
     chain := chain o; _status := Some rc |}.

(** The world after one round of the loop that started the child [ch],
    [xs] being the elements of the list object [chain] before the round:
    one more process, one more object, the list [chain] one element longer,
    and one more list object, the copy. *)
Definition after_round (w : World) (c : Command) (a : PopenArgs) (ch : Child)
    (chain : nat) (xs : list nat) : World :=
  {| host := host w;
     processes := processes w ++ [subprocess.started (length (processes w)) a ch];
     objects := objects w ++ [stage_object c (length (processes w)) (child_pid ch)
                                (length (lists w))];
     lists := <[chain := xs ++ [length (objects w)]]> (lists w) ++ [xs ++ [length (objects w)]] |}.

(** What the loop has built for the [i]-th command [c] of a run that
    started with [base] objects, [pbase] processes, [lbase] list objects,
    the input [stdin0] and the elements [xs0] in the list [chain], as seen
    in the world [w']. *)
Definition stage_built (h : Host) (cwd : option string) (env : gmap string string)
    (shell : bool) (base pbase lbase : nat) (stdin0 : option redirect) (xs0 : list nat)
    (w' : World) (i : nat) (c : Command) : Prop :=
  ∃ argv ch,
    tokens h c = inr argv ∧
    let a := stage_args argv (match i with O => stdin0 | S _ => None end) cwd env shell in
    spawn h (pbase + i) a = inr ch ∧
    processes w' !! (pbase + i) = Some (subprocess.started (pbase + i) a ch) ∧
    objects w' !! (base + i) = Some (stage_object c (pbase + i) (child_pid ch) (lbase + i)) ∧
    lists w' !! (lbase + i) = Some (xs0 ++ seq base (S i))%list.

(** The text ["a b\nc d\n"]. *)
Definition sample_text : string :=
  "a b" +:+ String pystr.LF ("c d" +:+ String pystr.LF EmptyString).

Ltac munfold :=
  unfold mbind, M_bind, bind, mret, M_ret, ret, raise, lift_host,
    get_host, get_process, set_process, new_process, get_object, set_object,
    new_object, get_list, set_list, new_list in *.

(** ** Observations on texts and launches *)

(** How many times the character [c] occurs in [s]. *)
Fixpoint occurrences (c : ascii) (s : string) : nat :=
  match s with
  | EmptyString => 0
  | String c' s' => (if Ascii.eqb c' c then 1 else 0) + occurrences c s'
  end.

(** [s] without its white space. *)
Fixpoint without_spaces (s : string) : string :=
  match s with
  | EmptyString => EmptyString
  | String c s' => if pystr.is_space c then without_spaces s' else String c (without_spaces s')
  end.

(** No character of [s] is white space. *)
Fixpoint no_space (s : string) : bool :=
  match s with
  | EmptyString => true
  | String c s' => negb (pystr.is_space c) && no_space s'
  end.

(** What stops the launch of the command [c] as the [n]-th process of the
    host, if anything: [shlex.split] raising, or else [Popen] raising. *)
Definition launch_error (h : Host) (n : nat) (c : Command) (stdin : option redirect)
    (cwd : option string) (env : gmap string string) (shell : bool) : option host_error :=
  match tokens h c with
  | inl e => Some e
  | inr argv =>
      match spawn h n (stage_args argv stdin cwd env shell) with
      | inl e => Some e
      | inr _ => None
      end
  end.

(** The arguments [create_process] gives to [Popen] for the tokens [argv]:
    both output streams are pipes with [capture_output], and otherwise what
    the [stdout=] and [stderr=] keywords say, [None] without them. *)
Definition popen_args (argv : list string) (stdin : option redirect)
    (cwd : option string) (env : gmap string string) (shell capture_output : bool)
    (kwargs : StreamKwargs) : PopenArgs :=
  {| a_args := argv; a_universal_newlines := true; a_shell := shell; a_cwd := cwd;
     a_env := env; a_stdin := stdin; a_bufsize := 0;
     a_stdout := if capture_output then Some PIPE else default None (kw_stdout kwargs);
     a_stderr := if capture_output then Some PIPE else default None (kw_stderr kwargs) |}.

(** ** Text helpers *)

Example lines_sample : std_output.lines sample_text = ["a b"; "c d"; EmptyString].
Proof. reflexivity. Qed.

Example repr_sample :
  pystr.str_of_list ["ls"; "-la"; "it's"]
  = "['ls', '-la', " +:+ String pystr.dquote ("it's" +:+ String pystr.dquote "]").
Proof. reflexivity. Qed.

Example shlex_sample :
  demo.posix_split ("a 'b c'  d" +:+ String pystr.backslash " e") = inr ["a"; "b c"; "d e"].
Proof. reflexivity. Qed.

Lemma split_not_nil sep s : pystr.split sep s ≠ [].
Proof. destruct s as [|c s]; simpl; [done|]. destruct (Ascii.eqb c sep); [done|]. by destruct (pystr.split sep s). Qed.

Lemma qlines_of_lines s : std_output.qlines s = pystr.split_ws <$> std_output.lines s.
Proof. reflexivity. Qed.

(** ** The monad *)

Lemma bind_run {A B} (m : M A) (k : A → M B) w :
  (m ≫= k) w = match m w with
               | (inl e, w') => (inl e, w')
               | (inr x, w') => k x w'
               end.
Proof. reflexivity. Qed.

Lemma ret_run {A} (x : A) w : (mret x : M A) w = (inr x, w).
Proof. reflexivity. Qed.

Lemma insert_last {A} (l : list A) (x y : A) : <[length l := y]> (l ++ [x]) = l ++ [y].
Proof. rewrite insert_app_r_alt by done. by rewrite Nat.sub_diag. Qed.

(** ** [communicate()] *)

Lemma communicate_run w p o :
  processes w !! p = Some o →
  communicate p w =
    (match communicate_fault (host w) p (subprocess.communicated o) with
     | Some e => inl (of_host e)
     | None => inr (subprocess.captured (subprocess.stdout o) (child_stdout (subprocess.child o)),
                    subprocess.captured (subprocess.stderr o) (child_stderr (subprocess.child o)))
     end, after_communicate w p o).
Proof.
  intros Hp. unfold communicate, after_communicate. munfold. simpl. rewrite Hp.
  destruct (communicate_fault (host w) p (subprocess.communicated o)); simpl; [done|].
  by rewrite list_insert_insert_eq.
Qed.

Lemma communicate_dangling w p :
  processes w !! p = None → communicate p w = (inl DanglingReference, w).
Proof. intros Hp. unfold communicate. munfold. simpl. by rewrite Hp. Qed.

Lemma after_communicate_host w p o : host (after_communicate w p o) = host w.
Proof. unfold after_communicate. by destruct (communicate_fault _ _ _). Qed.

Lemma after_communicate_objects w p o : objects (after_communicate w p o) = objects w.
Proof. unfold after_communicate. by destruct (communicate_fault _ _ _). Qed.

Lemma after_communicate_calls w p o :
  processes w !! p = Some o →
  communicate_calls (after_communicate w p o) p = Some (S (subprocess.communicated o)).
Proof.
  intros Hp. apply lookup_lt_Some in Hp.
  unfold communicate_calls, after_communicate.
  destruct (communicate_fault _ _ _); simpl; by rewrite list_lookup_insert_eq.
Qed.

Lemma after_communicate_returncode w p o :
  processes w !! p = Some o →
  communicate_fault (host w) p (subprocess.communicated o) = None →
  subprocess.returncode <$> processes (after_communicate w p o) !! p
  = Some (Some (child_exit (subprocess.child o))).
Proof.
  intros Hp Hf. apply lookup_lt_Some in Hp.
  unfold after_communicate. rewrite Hf. simpl. by rewrite list_lookup_insert_eq.
Qed.

(** [communicate()] raises only what the host raises, or follows a
    dangling reference. *)
Lemma communicate_raises w p e w' rc cmd :
  communicate p w = (inl e, w') → e ≠ CalledProcessError rc cmd.
Proof.
  destruct (processes w !! p) as [o|] eqn:Hp.
  - rewrite (communicate_run w p o Hp).
    destruct (communicate_fault _ _ _) as [[]|]; intros [= <- _]; done.
  - rewrite (communicate_dangling w p Hp). by intros [= <- _].
Qed.

(** ** The property [status] *)

Lemma status_dangling w self :
  objects w !! self = None → run.status self w = (inl DanglingReference, w).
Proof. intros Ho. unfold run.status. munfold. by rewrite Ho. Qed.

Lemma status_cached w self o v :
  objects w !! self = Some o → _status o = Some v → run.status self w = (inr v, w).
Proof. intros Ho Hs. unfold run.status. munfold. by rewrite Ho, Hs. Qed.

Lemma status_first w self o p :
  objects w !! self = Some o → _status o = None → processes w !! process o = Some p →
  run.status self w =
    match communicate_fault (host w) (process o) (subprocess.communicated p) with
    | Some e => (inl (of_host e), after_communicate w (process o) p)
    | None =>
        (inr (Some (child_exit (subprocess.child p))),
         with_objects (<[self := cache_status o (Some (child_exit (subprocess.child p)))]> (objects w))
           (after_communicate w (process o) p))
    end.
Proof.
  intros Ho Hs Hp. unfold run.status.
  rewrite bind_run. unfold get_object at 1. rewrite Ho, Hs.
  rewrite bind_run, (communicate_run w _ p Hp).
  pose proof (after_communicate_returncode w _ p Hp) as Hrc.
  destruct (communicate_fault _ _ _) as [e|]; [done|].
  specialize (Hrc eq_refl).
  unfold returncode_of. munfold.
  destruct (processes (after_communicate w (process o) p) !! process o) as [p'|]; [|done].
  simpl in Hrc. injection Hrc as ->. simpl.
  by rewrite after_communicate_objects.
Qed.

Lemma status_first_dangling w self o :
  objects w !! self = Some o → _status o = None → processes w !! process o = None →
  run.status self w = (inl DanglingReference, w).
Proof.
  intros Ho Hs Hp. unfold run.status.
  rewrite bind_run. unfold get_object at 1. rewrite Ho, Hs.
  by rewrite bind_run, (communicate_dangling w _ Hp).
Qed.

(** The four ways a read of [status] can go: no such object; the cached
    value; a call of [communicate()] on the process; no such process. Each
    case rewrites the read in the goal to its result. *)
Ltac status_cases w self :=
  destruct (objects w !! self) as [o|] eqn:Ho;
    [ destruct (_status o) as [s|] eqn:Hs;
      [ rewrite (status_cached w self o s Ho Hs)
      | destruct (processes w !! process o) as [p|] eqn:Hp;
        [ rewrite (status_first w self o p Ho Hs Hp);
          destruct (communicate_fault (host w) (process o) (subprocess.communicated p))
            as [fault|] eqn:Hfault
        | rewrite (status_first_dangling w self o Ho Hs Hp) ] ]
    | rewrite (status_dangling w self Ho) ].

(** A read of [status] that returns leaves the value in [_status]. *)
Lemma status_leaves_cache w self v w1 :
  run.status self w = (inr v, w1) →
  ∃ o1, objects w1 !! self = Some o1 ∧ _status o1 = Some v.
Proof.
  status_cases w self; try done; intros [= <- <-]; [eauto|].
  exists (cache_status o (Some (child_exit (subprocess.child p)))). split; [|done]. simpl.
  apply list_lookup_insert_eq. by eapply lookup_lt_Some.
Qed.

(** With every cached status an integer, [status] returns an integer. *)
Lemma status_integer w self v w1 :
  statuses_ok w = true → run.status self w = (inr v, w1) → ∃ z, v = Some z.
Proof.
  intros Hok. status_cases w self; try done; intros [= <- <-]; [|eauto].
  unfold statuses_ok in Hok. rewrite forallb_forall in Hok.
  specialize (Hok o). unfold status_ok in Hok. rewrite Hs in Hok.
  destruct s; [eauto|]. exfalso. apply diff_false_true, Hok.
  apply list_elem_of_In. by eapply list_elem_of_lookup_2.
Qed.

(** [status] raises only what [communicate()] raises. *)
Lemma status_raises w self e w1 rc cmd :
  run.status self w = (inl e, w1) → e ≠ CalledProcessError rc cmd.
Proof.
  status_cases w self; try done; intros [= <- _]; try done. by destruct fault.
Qed.

(** ** The properties [stdout] and [stderr] *)

Lemma stdout_run w self o p :
  objects w !! self = Some o → processes w !! process o = Some p →
  run.stdout self w =
    (match communicate_fault (host w) (process o) (subprocess.communicated p) with
     | Some e => inl (of_host e)
     | None => inr (std_output.new
                      (subprocess.captured (subprocess.stdout p) (child_stdout (subprocess.child p))))
     end, after_communicate w (process o) p).
Proof.
  intros Ho Hp. unfold run.stdout.
  rewrite bind_run. unfold get_object at 1. rewrite Ho.
  rewrite bind_run, (communicate_run w _ p Hp).
  by destruct (communicate_fault _ _ _).
Qed.

Lemma stderr_run w self o p :
  objects w !! self = Some o → processes w !! process o = Some p →
  run.stderr self w =
    (match communicate_fault (host w) (process o) (subprocess.communicated p) with
     | Some e => inl (of_host e)
     | None => inr (std_output.new
                      (subprocess.captured (subprocess.stderr p) (child_stderr (subprocess.child p))))
     end, after_communicate w (process o) p).
Proof.
  intros Ho Hp. unfold run.stderr.
  rewrite bind_run. unfold get_object at 1. rewrite Ho.
  rewrite bind_run, (communicate_run w _ p Hp).
  by destruct (communicate_fault _ _ _).
Qed.

Lemma stdout_raises w self e w1 rc cmd :
  run.stdout self w = (inl e, w1) → e ≠ CalledProcessError rc cmd.
Proof.
  unfold run.stdout. rewrite bind_run. unfold get_object at 1.
  destruct (objects w !! self) as [o|]; [|by intros [= <- _]].
  rewrite bind_run. destruct (communicate (process o) w) as [[e'|r] w'] eqn:Hc; [|done].
  intros [= <- _]. by eapply communicate_raises.
Qed.

Lemma stderr_raises w self e w1 rc cmd :
  run.stderr self w = (inl e, w1) → e ≠ CalledProcessError rc cmd.
Proof.
  unfold run.stderr. rewrite bind_run. unfold get_object at 1.
  destruct (objects w !! self) as [o|]; [|by intros [= <- _]].
  rewrite bind_run. destruct (communicate (process o) w) as [[e'|r] w'] eqn:Hc; [|done].
  intros [= <- _]. by eapply communicate_raises.
Qed.

(** ** The loop of [__new__] *)

Lemma tokens_of_run c w :
  run.tokens_of c w = (match tokens (host w) c with
                       | inl e => inl (of_host e)
                       | inr argv => inr argv
                       end, w).
Proof. destruct c; simpl; [|done]. munfold. by destruct (shlex_split (host w) s). Qed.

Lemma create_process_run c stdin cwd env shell w :
  run.create_process c stdin cwd env shell false no_kwargs w =
    match tokens (host w) c with
    | inl e => (inl (of_host e), w)
    | inr argv =>
        let a := stage_args argv stdin cwd env shell in
        match spawn (host w) (length (processes w)) a with
        | inl e => (inl (of_host e), w)
        | inr ch =>
            (inr (length (processes w)),
             with_processes (processes w ++ [subprocess.started (length (processes w)) a ch]) w)
        end
    end.
Proof.
  unfold run.create_process. rewrite bind_run, ret_run, bind_run, tokens_of_run.
  destruct (tokens (host w) c) as [e|argv]; [done|]. cbv zeta.
  unfold Popen. rewrite bind_run. unfold get_host at 1, new_process at 1. simpl.
  fold (stage_args argv stdin cwd env shell).
  by destruct (spawn _ _ _).
Qed.

Section loop.

Context (cwd : option string) (env : gmap string string) (shell : bool).

(** The list object of the local variable [chain]. *)
Context (chain : nat).

Lemma new_loop_round xs c rest l w :
  lists w !! chain = Some xs →
  run.new_loop cwd env shell chain (c :: rest) l w =
    match tokens (host w) c with
    | inl e => (inl (of_host e), w)
    | inr argv =>
        let a := stage_args argv (run.l_stdin l) cwd env shell in
        match spawn (host w) (length (processes w)) a with
        | inl e => (inl (of_host e), w)
        | inr ch =>
            run.new_loop cwd env shell chain rest
              {| run.l_stdin := None; run.l_obj := Some (length (objects w)) |}
              (after_round w c a ch chain xs)
        end
    end.
Proof.
  intros Hxs. simpl run.new_loop. rewrite bind_run, create_process_run.
  destruct (tokens (host w) c) as [e|argv]; [done|]. cbv zeta.
  destruct (spawn _ _ _) as [e|ch]; [done|].
  unfold stdout_of, pid_of. rewrite !bind_run.
  unfold get_process at 1. simpl. rewrite list_lookup_middle by done.
  rewrite ret_run, bind_run, bind_run.
  unfold get_process at 1. simpl. rewrite list_lookup_middle by done.
  rewrite ret_run, bind_run. unfold new_object at 1. simpl.
  rewrite bind_run. unfold pylist.append at 1. rewrite bind_run.
  unfold get_list at 1. simpl. rewrite Hxs. unfold set_list at 1. simpl.
  rewrite bind_run. unfold pylist.copy at 1. rewrite bind_run.
  unfold get_list at 1. simpl.
  rewrite list_lookup_insert_eq by by eapply lookup_lt_Some.
  unfold new_list at 1. simpl. rewrite bind_run.
  unfold run.set_chain at 1. rewrite bind_run. unfold get_object at 1. simpl.
  rewrite list_lookup_middle by done. unfold set_object at 1. simpl.
  f_equal. unfold after_round, with_objects, with_lists. simpl.
  rewrite insert_last, length_insert. reflexivity.
Qed.

Lemma after_round_chain w c a ch xs :
  lists w !! chain = Some xs →
  lists (after_round w c a ch chain xs) !! chain = Some (xs ++ [length (objects w)]).
Proof.
  intros Hxs. apply lookup_lt_Some in Hxs. simpl.
  rewrite lookup_app_l by by rewrite length_insert.
  by apply list_lookup_insert_eq.
Qed.

(** Running the loop over [pre ++ post] is running it over [pre] and then
    over [post] from the locals and the world that [pre] left. *)
Lemma new_loop_app pre post : ∀ xs l w,
  lists w !! chain = Some xs →
  run.new_loop cwd env shell chain (pre ++ post) l w =
    match run.new_loop cwd env shell chain pre l w with
    | (inl e, w1) => (inl e, w1)
    | (inr l1, w1) => run.new_loop cwd env shell chain post l1 w1
    end.
Proof.
  induction pre as [|c pre IH]; intros xs l w Hxs; [done|].
  rewrite <- app_comm_cons, !(new_loop_round xs) by done.
  destruct (tokens (host w) c) as [e|argv]; [done|]. cbv zeta.
  destruct (spawn _ _ _) as [e|ch]; [done|].
  eapply IH. by apply after_round_chain.
Qed.

Lemma new_loop_spec args : ∀ xs l w l' w',
  lists w !! chain = Some xs →
  run.new_loop cwd env shell chain args l w = (inr l', w') →
  host w' = host w ∧
  objects w `prefix_of` objects w' ∧
  length (objects w') = length (objects w) + length args ∧
  processes w `prefix_of` processes w' ∧
  length (processes w') = length (processes w) + length args ∧
  length (lists w') = length (lists w) + length args ∧
  lists w' !! chain = Some (xs ++ seq (length (objects w)) (length args)) ∧
  (∀ a, a < length (lists w) → a ≠ chain → lists w' !! a = lists w !! a) ∧
  run.l_obj l' = match args with
                 | [] => run.l_obj l
                 | _ => Some (length (objects w) + length args - 1)
                 end ∧
  ∀ i c, args !! i = Some c →
    stage_built (host w) cwd env shell (length (objects w)) (length (processes w))
      (length (lists w)) (run.l_stdin l) xs w' i c.
Proof.
  induction args as [|c rest IH]; intros xs l w l' w' Hxs Hrun.
  { injection Hrun as <- <-. simpl. rewrite !Nat.add_0_r, app_nil_r. done. }
  rewrite (new_loop_round xs) in Hrun by done.
  destruct (tokens (host w) c) as [e|argv] eqn:Htok; [done|]. cbv zeta in Hrun.
  destruct (spawn _ _ _) as [e|ch] eqn:Hspawn; [done|].
  pose proof (lookup_lt_Some _ _ _ Hxs) as Hlt.
  eapply IH in Hrun as (Hh & Hpo & Hlo & Hpp & Hlp & Hll & Hch & Hkeep & Hobj & Hst);
    [|by apply after_round_chain].
  simpl in *. rewrite !length_app, ?length_insert in *. simpl in *.
  assert (lists w' !! length (lists w) = Some (xs ++ [length (objects w)])) as Hcopy.
  { rewrite Hkeep by (rewrite ?length_insert; lia).
    rewrite <- (length_insert (lists w) chain (xs ++ [length (objects w)])) at 1.
    by apply list_lookup_middle. }
  repeat split.
  - done.
  - etrans; [|exact Hpo]. by apply prefix_app_r.
  - lia.
  - etrans; [|exact Hpp]. by apply prefix_app_r.
  - lia.
  - lia.
  - rewrite Hch, <- app_assoc. simpl. by rewrite Nat.add_1_r.
  - intros a Ha Hne. rewrite Hkeep by (rewrite ?length_insert; lia).
    rewrite lookup_app_l by (rewrite length_insert; lia).
    by apply list_lookup_insert_ne.
  - rewrite Hobj. destruct rest; simpl; f_equal; lia.
  - intros [|i] c' Hc'.
    + injection Hc' as <-. exists argv, ch. rewrite !Nat.add_0_r. simpl.
      repeat split; [done..| | |done].
      * eapply prefix_lookup_Some; [|exact Hpp]. by apply list_lookup_middle.
      * eapply prefix_lookup_Some; [|exact Hpo]. by apply list_lookup_middle.
    + simpl in Hc'. destruct (Hst i c' Hc') as (argv' & ch' & Ht' & Hs' & Hp' & Ho' & Hl').
      exists argv', ch'.
      rewrite !Nat.add_1_r in *.
      rewrite <- !Nat.add_succ_comm.
      assert (match i with O => None | S _ => None end = @None redirect) as Hnone by by destruct i.
      rewrite Hnone in *. rewrite <- app_assoc in Hl'. simpl in *.
      done.
Qed.

End loop.

(** ** [__new__] *)

(** The world in which the loop of [__new__] starts: [chain = []] has made
    a list object. *)
Lemma new_run args kw w :
  run.__new__ args kw w =
    match run.new_loop (kw_cwd kw) (run.merged_env (host w) kw) (default false (kw_shell kw))
            (length (lists w)) args (run.initial kw) (with_lists (lists w ++ [[]]) w) with
    | (inl e, w1) => (inl e, w1)
    | (inr l, w1) =>
        match run.l_obj l with
        | Some obj => (inr obj, w1)
        | None => (inl (UnboundLocalError "obj"), w1)
        end
    end.
Proof.
  unfold run.__new__. rewrite bind_run. unfold get_host at 1. cbv zeta.
  rewrite bind_run. unfold new_list at 1. rewrite bind_run.
  destruct (run.new_loop _ _ _ _ _ _ _) as [[e|l] w1]; [done|].
  by destruct (run.l_obj l).
Qed.

Lemma new_spec args kw w r w1 :
  run.__new__ args kw w = (inr r, w1) →
  host w1 = host w ∧
  objects w `prefix_of` objects w1 ∧
  length (objects w1) = length (objects w) + length args ∧
  processes w `prefix_of` processes w1 ∧
  length (processes w1) = length (processes w) + length args ∧
  (∀ a, a < length (lists w) → lists w1 !! a = lists w !! a) ∧
  lists w1 !! length (lists w) = Some (seq (length (objects w)) (length args)) ∧
  0 < length args ∧
  r = length (objects w) + length args - 1 ∧
  ∀ i c, args !! i = Some c →
    stage_built (host w) (kw_cwd kw) (run.merged_env (host w) kw) (default false (kw_shell kw))
      (length (objects w)) (length (processes w)) (S (length (lists w)))
      (default (Some PIPE) (kw_stdin kw)) [] w1 i c.
Proof.
  rewrite new_run.
  destruct (run.new_loop _ _ _ _ _ _ _) as [[e|l] w'] eqn:Hloop; [done|].
  eapply (new_loop_spec _ _ _ _ _ []) in Hloop
    as (Hh & Hpo & Hlo & Hpp & Hlp & Hll & Hch & Hkeep & Hobj & Hst);
    [|by apply list_lookup_middle].
  rewrite Hobj. destruct args as [|c args]; [done|].
  intros [= <- <-]. simpl in *. rewrite length_app in *. simpl in *.
  rewrite Nat.add_1_r in *.
  repeat split; try done; try lia.
  intros a Ha. rewrite Hkeep by lia. by apply lookup_app_l.
Qed.

(** The object of the [i]-th stage of a pipeline: its [chain] is a list
    object of its own, which holds the addresses of the stages up to [i]. *)
Lemma new_stage_object args kw w r w1 i c :
  run.__new__ args kw w = (inr r, w1) → args !! i = Some c →
  ∃ o, objects w1 !! (length (objects w) + i) = Some o ∧
       command o = c ∧ text o = run.text_of c ∧ _status o = None ∧
       process o = length (processes w) + i ∧
       chain o = Some (S (length (lists w)) + i) ∧
       lists w1 !! (S (length (lists w)) + i) = Some (seq (length (objects w)) (S i)).
Proof.
  intros Hnew Hc. apply new_spec in Hnew as (_ & _ & _ & _ & _ & _ & _ & _ & _ & Hst).
  destruct (Hst i c Hc) as (argv & ch & _ & _ & _ & Ho & Hl).
  eexists. split; [exact Ho|]. simpl. repeat split; try done.
Qed.

(** The process of the [i]-th stage of a pipeline. *)
Lemma new_stage_process args kw w r w1 i c :
  run.__new__ args kw w = (inr r, w1) → args !! i = Some c →
  ∃ p, processes w1 !! (length (processes w) + i) = Some p ∧
       a_stdin (subprocess.args p)
         = match i with O => default (Some PIPE) (kw_stdin kw) | S _ => None end ∧
       a_stdout (subprocess.args p) = None ∧ a_stderr (subprocess.args p) = None ∧
       subprocess.stdout p = None ∧ subprocess.stderr p = None ∧
       subprocess.communicated p = 0 ∧
       spawn (host w) (length (processes w) + i) (subprocess.args p) = inr (subprocess.child p).
Proof.
  intros Hnew Hc. apply new_spec in Hnew as (_ & _ & _ & _ & _ & _ & _ & _ & _ & Hst).
  destruct (Hst i c Hc) as (argv & ch & _ & Hs & Hp & _).
  eexists. split; [exact Hp|]. simpl. done.
Qed.

Lemma commands_of_run w addrs cs :
  Forall2 (λ a c, ∃ o, objects w !! a = Some o ∧ command o = c) addrs cs →
  run.commands_of addrs w = (inr cs, w).
Proof.
  induction 1 as [|a c addrs cs (o & Ho & Hc) _ IH]; [done|].
  simpl. rewrite bind_run. unfold get_object at 1. rewrite Ho, bind_run, IH.
  by rewrite ret_run, Hc.
Qed.

Lemma statuses_ok_lookup w :
  statuses_ok w = true ↔ ∀ a o, objects w !! a = Some o → _status o ≠ Some None.
Proof.
  unfold statuses_ok. rewrite forallb_forall. split.
  - intros H a o Ho Hs. specialize (H o). unfold status_ok in H. rewrite Hs in H.
    apply diff_false_true, H, list_elem_of_In. by eapply list_elem_of_lookup_2.
  - intros H o Hin. apply list_elem_of_In, list_elem_of_lookup in Hin as [a Ha].
    specialize (H a o Ha). unfold status_ok. by destruct (_status o) as [[]|].
Qed.

(** [__new__] keeps every cached status an integer: the objects it adds
    have no [_status]. *)
Lemma new_statuses_ok args kw w r w1 :
  run.__new__ args kw w = (inr r, w1) → statuses_ok w = true → statuses_ok w1 = true.
Proof.
  intros Hnew. rewrite !statuses_ok_lookup. intros Hok a o Ho.
  destruct (decide (a < length (objects w))) as [Hlt|Hge].
  - apply new_spec in Hnew as (_ & Hpo & _).
    destruct (lookup_lt_is_Some_2 _ _ Hlt) as [o' Ho'].
    pose proof (prefix_lookup_Some _ _ _ _ Ho' Hpo) as Ho''.
    rewrite Ho in Ho''. injection Ho'' as ->. by eapply Hok.
  - pose proof Hnew as (_ & _ & Hlen & _)%new_spec.
    apply lookup_lt_Some in Ho as Hlt. rewrite Hlen in Hlt.
    destruct (lookup_lt_is_Some_2 args (a - length (objects w)) ltac:(lia)) as [c Hc].
    destruct (new_stage_object _ _ _ _ _ _ _ Hnew Hc) as (o' & Ho' & _ & _ & Hs & _).
    replace (length (objects w) + (a - length (objects w))) with a in Ho' by lia.
    rewrite Ho in Ho'. injection Ho' as ->. by rewrite Hs.
Qed.

(** ** Pipeline construction *)

(** C8: with no command specification, [run()] raises (the
    [UnboundLocalError] of [return obj], the loop never having assigned
    [obj]) and returns no object. No process is started and no object is
    made: all the call leaves is the empty list of [chain = []]. So a call
    that returns an object had at least one command. *)
Theorem no_commands_raises kw w :
  (∃ w1, run.__new__ [] kw w = (inl (UnboundLocalError "obj"), w1) ∧
         processes w1 = processes w ∧ objects w1 = objects w ∧
         lists w1 = lists w ++ [[]]) ∧
  (∀ args r w1, run.__new__ args kw w = (inr r, w1) → args ≠ []).
Proof.
  split.
  - exists (with_lists (lists w ++ [[]]) w). by repeat split.
  - intros args r w1 Hnew ->. discriminate Hnew.
Qed.

(** C5: in a pipeline built from [pre ++ post], take the world [w1] reached
    when the stages of [pre] have been constructed and the final world
    [w2]. The object of stage [i] of [pre] is the same in both. Its [chain]
    is a list object of its own (one per stage, none of them the list of
    the local variable [chain]), which in both worlds holds the addresses
    of the stages up to [i] in construction order and ends with the address
    of the stage itself. The list of the local variable is the one that
    grows with the later stages. *)
Theorem chain_is_snapshot pre post kw w r w2 :
  run.__new__ (pre ++ post) kw w = (inr r, w2) →
  ∃ l1 w1,
    run.new_loop (kw_cwd kw) (run.merged_env (host w) kw) (default false (kw_shell kw))
      (length (lists w)) pre (run.initial kw) (with_lists (lists w ++ [[]]) w) = (inr l1, w1) ∧
    lists w1 !! length (lists w) = Some (seq (length (objects w)) (length pre)) ∧
    lists w2 !! length (lists w) = Some (seq (length (objects w)) (length (pre ++ post))) ∧
    ∀ i c, pre !! i = Some c →
      ∃ o, objects w1 !! (length (objects w) + i) = Some o ∧
           objects w2 !! (length (objects w) + i) = Some o ∧
           command o = c ∧
           chain o = Some (S (length (lists w)) + i) ∧
           lists w1 !! (S (length (lists w)) + i) = Some (seq (length (objects w)) (S i)) ∧
           lists w2 !! (S (length (lists w)) + i) = Some (seq (length (objects w)) (S i)) ∧
           last (seq (length (objects w)) (S i)) = Some (length (objects w) + i).
Proof.
  intros Hnew. pose proof Hnew as Hrun.
  rewrite new_run, (new_loop_app _ _ _ _ _ _ []) in Hrun by by apply list_lookup_middle.
  destruct (run.new_loop _ _ _ _ pre _ _) as [[e|l1] w1] eqn:Hpre; [done|].
  exists l1, w1. split; [done|].
  eapply (new_loop_spec _ _ _ _ _ []) in Hpre
    as (_ & _ & Hlo1 & _ & _ & Hll1 & Hch1 & _ & _ & Hst1); [|by apply list_lookup_middle].
  simpl in Hch1, Hll1, Hlo1, Hst1. rewrite length_app in Hll1, Hst1. simpl in Hll1, Hst1.
  rewrite Nat.add_1_r in Hll1, Hst1.
  pose proof Hnew as (_ & _ & _ & _ & _ & _ & Hch2 & _)%new_spec.
  split; [done|]. split; [done|].
  intros i c Hc.
  destruct (Hst1 i c Hc) as (argv & ch & _ & _ & _ & Ho1 & Hl1). simpl in Hl1.
  destruct (new_stage_object _ _ _ _ _ i c Hnew) as (o & Ho & Hcmd & _ & _ & _ & Hchain & Hl2).
  { by apply lookup_app_l_Some. }
  exists o.
  assert (objects w1 !! (length (objects w) + i) = Some o) as Ho1'.
  { destruct (run.new_loop _ _ _ _ post _ _) as [[e|l2] w2'] eqn:Hpost; [done|].
    assert (w2' = w2) as -> by (destruct (run.l_obj l2); congruence).
    eapply new_loop_spec in Hpost as (_ & Hpo & _); [|exact Hch1].
    pose proof (prefix_lookup_Some _ _ _ _ Ho1 Hpo) as Ho2.
    rewrite Ho in Ho2. injection Ho2 as ->. exact Ho1. }
  repeat split; try done.
  rewrite seq_S, last_snoc. done.
Qed.

Lemma chain_is_snapshot_witness :
  ∃ l1 w1,
    run.new_loop None (run.merged_env demo.os defaults) false 0
      [CmdStr "echo hello"; CmdSeq ["echo"; "x"]] (run.initial defaults)
      (with_lists [[]] demo.world) = (inr l1, w1) ∧
    lists w1 !! 0 = Some [0; 1] ∧
    lists demo.piped !! 0 = Some [0; 1; 2] ∧
    ∀ i c, [CmdStr "echo hello"; CmdSeq ["echo"; "x"]] !! i = Some c →
      ∃ o, objects w1 !! (0 + i) = Some o ∧
           objects demo.piped !! (0 + i) = Some o ∧
           command o = c ∧
           chain o = Some (1 + i) ∧
           lists w1 !! (1 + i) = Some (seq 0 (S i)) ∧
           lists demo.piped !! (1 + i) = Some (seq 0 (S i)) ∧
           last (seq 0 (S i)) = Some (0 + i).
Proof.
  apply (chain_is_snapshot [CmdStr "echo hello"; CmdSeq ["echo"; "x"]] [CmdStr "false"]
           defaults demo.world 2 demo.piped).
  reflexivity.
Defined.

(** C6: the [repr] of the result of a pipeline is the display strings of
    its command specifications, in order, joined by [" | "]; a token
    sequence is displayed as its tokens joined by a space. *)
Theorem repr_joins_commands args kw w r w1 :
  run.__new__ args kw w = (inr r, w1) →
  run.__repr__ r w1 = (inr (pystr.join " | " (run.display <$> args)), w1).
Proof.
  intros Hnew.
  pose proof Hnew as (_ & _ & _ & _ & _ & _ & _ & Hpos & -> & _)%new_spec.
  destruct (lookup_lt_is_Some_2 args (length args - 1) ltac:(lia)) as [c Hc].
  destruct (new_stage_object _ _ _ _ _ _ _ Hnew Hc) as (o & Ho & _ & _ & _ & _ & Hchain & Hl).
  replace (length (objects w) + (length args - 1)) with (length (objects w) + length args - 1)
    in Ho by lia.
  replace (S (length args - 1)) with (length args) in Hl by lia.
  unfold run.__repr__. rewrite bind_run. unfold get_object at 1. rewrite Ho, Hchain, bind_run.
  unfold get_list at 1. rewrite Hl, bind_run.
  rewrite (commands_of_run w1 _ args); [done|].
  apply Forall2_same_length_lookup. split; [by rewrite length_seq|].
  intros i a c' [-> _]%lookup_seq Hc'.
  destruct (new_stage_object _ _ _ _ _ _ _ Hnew Hc') as (o' & Ho' & Hcmd & _). eauto.
Qed.

Lemma repr_joins_commands_witness :
  run.__repr__ 2 demo.piped = (inr "echo hello | echo x | false", demo.piped).
Proof.
  apply (repr_joins_commands demo.pipeline defaults demo.world 2 demo.piped).
  reflexivity.
Defined.

(** C10: the result of a pipeline of string command specifications holds,
    as its own text, the last command string. *)
Theorem result_text_is_last_command cmds kw w r w1 :
  run.__new__ (CmdStr <$> cmds) kw w = (inr r, w1) →
  ∃ o s, objects w1 !! r = Some o ∧ last cmds = Some s ∧ text o = s.
Proof.
  intros Hnew.
  pose proof Hnew as (_ & _ & _ & _ & _ & _ & _ & Hpos & -> & _)%new_spec.
  rewrite length_fmap in *.
  destruct (lookup_lt_is_Some_2 cmds (length cmds - 1) ltac:(lia)) as [s Hs].
  destruct (new_stage_object _ _ _ _ _ (length cmds - 1) (CmdStr s) Hnew)
    as (o & Ho & _ & Htext & _).
  { by rewrite list_lookup_fmap, Hs. }
  exists o, s. split; [|split; [|done]].
  - rewrite <- Ho. f_equal. lia.
  - rewrite last_lookup. rewrite <- Hs. f_equal. lia.
Qed.

Lemma result_text_is_last_command_witness :
  ∃ o s, objects demo.echo_hello !! 0 = Some o ∧ last ["echo hello"] = Some s ∧ text o = s.
Proof.
  apply (result_text_is_last_command ["echo hello"] defaults demo.world 0 demo.echo_hello).
  reflexivity.
Defined.

(** ** Reading the result *)

(** C3: a read of [status] that returns gives an integer, and a second
    read gives the same integer from [_status]: it leaves the world as it
    is, so [communicate()] is not called again. *)
Theorem status_twice w self v w1 :
  statuses_ok w = true →
  run.status self w = (inr v, w1) →
  ∃ z, v = Some z ∧
       run.status self w1 = (inr (Some z), w1) ∧
       ∀ p, communicate_calls (snd (run.status self w1)) p = communicate_calls w1 p.
Proof.
  intros Hok Hfirst.
  destruct (status_integer _ _ _ _ Hok Hfirst) as [z ->].
  destruct (status_leaves_cache _ _ _ _ Hfirst) as (o1 & Ho1 & Hs1).
  exists z. rewrite (status_cached w1 self o1 _ Ho1 Hs1). done.
Qed.

Lemma status_twice_witness :
  ∃ z, Some 0%Z = Some z ∧
       run.status 0 (snd (run.status 0 demo.echo_hello))
         = (inr (Some z), snd (run.status 0 demo.echo_hello)) ∧
       ∀ p, communicate_calls (snd (run.status 0 (snd (run.status 0 demo.echo_hello)))) p
            = communicate_calls (snd (run.status 0 demo.echo_hello)) p.
Proof.
  apply (status_twice demo.echo_hello 0 (Some 0%Z) (snd (run.status 0 demo.echo_hello)));
    reflexivity.
Defined.

Lemma read_keeps_cache r w self o v :
  objects w !! self = Some o → _status o = Some v →
  objects (snd (read r self w)) !! self = Some o.
Proof.
  intros Ho Hs. destruct r; simpl; rewrite bind_run.
  - by rewrite (status_cached w self o v Ho Hs).
  - destruct (processes w !! process o) as [p|] eqn:Hp.
    + rewrite (stdout_run w self o p Ho Hp).
      destruct (communicate_fault _ _ _); simpl; by rewrite after_communicate_objects.
    + unfold run.stdout. rewrite bind_run. unfold get_object at 1.
      by rewrite Ho, bind_run, (communicate_dangling w _ Hp).
  - destruct (processes w !! process o) as [p|] eqn:Hp.
    + rewrite (stderr_run w self o p Ho Hp).
      destruct (communicate_fault _ _ _); simpl; by rewrite after_communicate_objects.
    + unfold run.stderr. rewrite bind_run. unfold get_object at 1.
      by rewrite Ho, bind_run, (communicate_dangling w _ Hp).
Qed.

Lemma reads_keep_cache rs : ∀ w self o v,
  objects w !! self = Some o → _status o = Some v →
  objects (reads rs self w) !! self = Some o.
Proof.
  induction rs as [|r rs IH]; intros w self o v Ho Hs; [done|].
  simpl. eapply IH; [|exact Hs]. by eapply read_keeps_cache.
Qed.

(** C4, as the code has it: [stdout] and [stderr] are not cached, each read
    of either calls [communicate()] once more; [status] is cached, once it
    has been read every later read of it, after any reads in between,
    returns the same value and leaves the world as it is. *)
Theorem reads_cache_only_status w self o p :
  objects w !! self = Some o → processes w !! process o = Some p →
  communicate_calls w (process o) = Some (subprocess.communicated p) ∧
  communicate_calls (snd (run.stdout self w)) (process o) = Some (S (subprocess.communicated p)) ∧
  communicate_calls (snd (run.stderr self w)) (process o) = Some (S (subprocess.communicated p)) ∧
  ∀ v w1, run.status self w = (inr v, w1) →
    ∀ rs, run.status self (reads rs self w1) = (inr v, reads rs self w1).
Proof.
  intros Ho Hp. repeat split.
  - unfold communicate_calls. by rewrite Hp.
  - rewrite (stdout_run w self o p Ho Hp). simpl. by apply after_communicate_calls.
  - rewrite (stderr_run w self o p Ho Hp). simpl. by apply after_communicate_calls.
  - intros v w1 Hfirst rs.
    destruct (status_leaves_cache _ _ _ _ Hfirst) as (o1 & Ho1 & Hs1).
    eapply status_cached; [|exact Hs1]. by eapply reads_keep_cache.
Qed.

Lemma reads_cache_only_status_witness :
  communicate_calls demo.echo_hello 0 = Some 0 ∧
  communicate_calls (snd (run.stdout 0 demo.echo_hello)) 0 = Some 1 ∧
  communicate_calls (snd (run.stderr 0 demo.echo_hello)) 0 = Some 1 ∧
  ∀ v w1, run.status 0 demo.echo_hello = (inr v, w1) →
    ∀ rs, run.status 0 (reads rs 0 w1) = (inr v, reads rs 0 w1).
Proof.
  apply (reads_cache_only_status demo.echo_hello 0
           (stage_object (CmdStr "echo hello") 0 4000 1)
           (subprocess.started 0
              (stage_args ["echo"; "hello"] (Some PIPE) None (run.merged_env demo.os defaults) false)
              {| child_pid := 4000; child_stdout := "hello" +:+ String pystr.LF EmptyString;
                 child_stderr := EmptyString; child_exit := 0 |}));
    reflexivity.
Defined.

(** C4, as stated, fails on [run('echo hello')]: reading [stdout] twice
    calls [communicate()] twice on the one process. *)
Lemma stdout_twice_communicates_twice :
  ∃ n, communicate_calls (reads [ReadStdout; ReadStdout] 0 demo.echo_hello) 0 = Some n ∧ ¬ (n ≤ 1)%nat.
Proof. exists 2. split; [reflexivity | lia]. Qed.

(** ** [check_returncode] *)

Lemma check_returncode_run w self :
  run.check_returncode self w =
    match run.status self w with
    | (inl e, w1) => (inl e, w1)
    | (inr v, w1) =>
        if bool_decide (v ≠ Some 0%Z) then
          match objects w1 !! self with
          | Some o => (inl (CalledProcessError v (command o)), w1)
          | None => (inl DanglingReference, w1)
          end
        else (inr tt, w1)
    end.
Proof.
  unfold run.check_returncode, run.returncode. rewrite bind_run.
  destruct (run.status self w) as [[e|v] w1] eqn:Hfirst; [done|].
  case_bool_decide; [|done].
  destruct (status_leaves_cache _ _ _ _ Hfirst) as (o1 & Ho1 & Hs1).
  rewrite bind_run, (status_cached w1 self o1 v Ho1 Hs1), bind_run.
  unfold get_object at 1. by rewrite Ho1.
Qed.

(** C7: [check_returncode] raises [CalledProcessError] exactly when the
    status it reads is a non-zero integer, with that exit code and the
    command of the object; with status 0 it returns, having done no more
    than the read of [status]; reading [status], [stdout] or [stderr] never
    raises [CalledProcessError]. *)
Theorem check_returncode_raises_iff_nonzero w self :
  statuses_ok w = true →
  (∀ rc cmd w1,
     run.check_returncode self w = (inl (CalledProcessError rc cmd), w1) ↔
     ∃ z o, rc = Some z ∧ z ≠ 0%Z ∧ run.status self w = (inr (Some z), w1) ∧
            objects w1 !! self = Some o ∧ cmd = command o) ∧
  (∀ w1, run.status self w = (inr (Some 0%Z), w1) →
         run.check_returncode self w = (inr tt, w1)) ∧
  (∀ e w1 rc cmd,
     run.status self w = (inl e, w1) ∨ run.stdout self w = (inl e, w1)
       ∨ run.stderr self w = (inl e, w1) →
     e ≠ CalledProcessError rc cmd).
Proof.
  intros Hok. split; [|split].
  - intros rc cmd w1. rewrite check_returncode_run.
    destruct (run.status self w) as [[e|v] w1'] eqn:Hfirst.
    + split.
      * intros [= -> ->]. by eapply status_raises in Hfirst.
      * intros (z & o & _ & _ & [=] & _).
    + destruct (status_integer _ _ _ _ Hok Hfirst) as [z ->].
      destruct (status_leaves_cache _ _ _ _ Hfirst) as (o1 & Ho1 & _).
      rewrite Ho1. case_bool_decide as Hz; split.
      * intros [= <- <- <-]. exists z, o1. repeat split; try done.
        intros ->. by apply Hz.
      * intros (z' & o & -> & Hz' & [= -> ->] & Ho & ->).
        rewrite Ho1 in Ho. by injection Ho as ->.
      * done.
      * intros (z' & o & -> & Hz' & [= -> ->] & _). congruence.
  - intros w1 Hfirst. rewrite check_returncode_run, Hfirst. by case_bool_decide.
  - intros e w1 rc cmd [H|[H|H]].
    + by eapply status_raises.
    + by eapply stdout_raises.
    + by eapply stderr_raises.
Qed.

Lemma check_returncode_raises_iff_nonzero_witness :
  run.check_returncode 0 demo.exits_1
  = (inl (CalledProcessError (Some 1%Z) (CmdStr "false")), snd (run.status 0 demo.exits_1)).
Proof.
  apply (proj1 (check_returncode_raises_iff_nonzero demo.exits_1 0 eq_refl)).
  exists 1%Z, (cache_status (stage_object (CmdStr "false") 0 4000 1) (Some 1%Z)).
  split; [reflexivity|]. split; [lia|]. split; [reflexivity|]. split; reflexivity.
Defined.

(** ** What the stages of a pipeline are wired to *)

(** Every process [run(...)] starts has no [stdout] pipe, and every stage
    after the first is started with [stdin=None]: it reads the standard
    input of the parent. The first is started with [kwargs['stdin']], or
    [subprocess.PIPE] without that key. *)
Lemma stages_share_no_pipe args kw w r w1 i c :
  run.__new__ args kw w = (inr r, w1) → args !! i = Some c →
  ∃ p, processes w1 !! (length (processes w) + i) = Some p ∧
       subprocess.stdout p = None ∧
       a_stdin (subprocess.args p)
         = match i with O => default (Some PIPE) (kw_stdin kw) | S _ => None end.
Proof.
  intros Hnew Hc.
  destruct (new_stage_process _ _ _ _ _ _ _ Hnew Hc) as (p & Hp & Hin & _ & _ & Hout & _).
  eauto.
Qed.

(** The [stdout] of every result of [run(...)] is the text ["None"],
    whatever its process writes, unless [communicate()] raises. *)
Lemma result_stdout_is_None args kw w r w1 :
  run.__new__ args kw w = (inr r, w1) →
  communicate_fault (host w) (length (processes w) + length args - 1) 0 = None →
  fst (run.stdout r w1) = inr "None".
Proof.
  intros Hnew Hfault.
  pose proof Hnew as (Hh & _ & _ & _ & _ & _ & _ & Hpos & -> & _)%new_spec.
  destruct (lookup_lt_is_Some_2 args (length args - 1) ltac:(lia)) as [c Hc].
  destruct (new_stage_object _ _ _ _ _ _ _ Hnew Hc) as (o & Ho & _ & _ & _ & Hproc & _).
  destruct (new_stage_process _ _ _ _ _ _ _ Hnew Hc) as (p & Hp & _ & _ & _ & Hout & _ & Hn & _).
  replace (length (objects w) + (length args - 1)) with (length (objects w) + length args - 1)
    in Ho by lia.
  rewrite <- Hproc in Hp. rewrite (stdout_run w1 _ o p Ho Hp).
  rewrite Hh, Hn, Hproc, Hout.
  replace (length (processes w) + (length args - 1)) with (length (processes w) + length args - 1)
    by lia.
  by rewrite Hfault.
Qed.

(** The [status] of every result of [run(...)] is the exit code of its
    last process, unless [communicate()] raises. *)
Lemma result_status_is_exit_code args kw w r w1 :
  run.__new__ args kw w = (inr r, w1) →
  communicate_fault (host w) (length (processes w) + length args - 1) 0 = None →
  ∃ p, processes w1 !! (length (processes w) + length args - 1) = Some p ∧
       fst (run.status r w1) = inr (Some (child_exit (subprocess.child p))).
Proof.
  intros Hnew Hfault.
  pose proof Hnew as (Hh & _ & _ & _ & _ & _ & _ & Hpos & -> & _)%new_spec.
  destruct (lookup_lt_is_Some_2 args (length args - 1) ltac:(lia)) as [c Hc].
  destruct (new_stage_object _ _ _ _ _ _ _ Hnew Hc) as (o & Ho & _ & _ & Hs & Hproc & _).
  destruct (new_stage_process _ _ _ _ _ _ _ Hnew Hc) as (p & Hp & _ & _ & _ & _ & _ & Hn & _).
  replace (length (objects w) + (length args - 1)) with (length (objects w) + length args - 1)
    in Ho by lia.
  replace (length (processes w) + (length args - 1)) with (length (processes w) + length args - 1)
    in * by lia.
  exists p. split; [done|].
  rewrite <- Hproc in Hp. rewrite (status_first w1 _ o p Ho Hs Hp).
  by rewrite Hh, Hn, Hproc, Hfault.
Qed.

(** [create_process] with [capture_output=True]: a [stdout=] or [stderr=]
    keyword is refused before anything is started; without them both
    streams of the process are pipes. *)
Lemma create_process_capture_conflict c stdin cwd env shell kwargs w :
  is_Some (kw_stdout kwargs) ∨ is_Some (kw_stderr kwargs) →
  run.create_process c stdin cwd env shell true kwargs w
  = (inl (ValueError "capture_output will override stdout/stderr kwargs"), w).
Proof.
  intros H. unfold run.create_process. rewrite bind_run.
  destruct (bool_decide (is_Some (kw_stdout kwargs))) eqn:H1; [done|].
  destruct (bool_decide (is_Some (kw_stderr kwargs))) eqn:H2; [done|].
  apply bool_decide_eq_false in H1, H2. tauto.
Qed.

Lemma create_process_captures c stdin cwd env shell w h w1 :
  run.create_process c stdin cwd env shell true no_kwargs w = (inr h, w1) →
  ∃ p, processes w1 !! h = Some p ∧
       subprocess.stdout p = Some (pipe_end h fd_stdout) ∧
       subprocess.stderr p = Some (pipe_end h fd_stderr).
Proof.
  unfold run.create_process. rewrite bind_run. simpl. rewrite bind_run, tokens_of_run.
  destruct (tokens (host w) c) as [e|argv]; [done|].
  unfold Popen. rewrite bind_run. unfold get_host at 1, new_process at 1. simpl.
  destruct (spawn _ _ _) as [e|ch]; [done|]. intros [= <- <-]. simpl.
  eexists. split; [by apply list_lookup_middle|]. done.
Qed.

(** C1, on [run('echo hello')]: the child writes ["hello\n"] and exits
    with 0; [status] is 0, and [stdout] is the text ["None"]. *)
Theorem echo_hello_stdout :
  ∃ p, processes demo.echo_hello !! 0 = Some p ∧
       child_stdout (subprocess.child p) = "hello" +:+ String pystr.LF EmptyString ∧
       child_exit (subprocess.child p) = 0%Z ∧
       run.__new__ [CmdStr "echo hello"] defaults demo.world = (inr 0, demo.echo_hello) ∧
       fst (run.status 0 demo.echo_hello) = inr (Some 0%Z) ∧
       fst (run.stdout 0 demo.echo_hello) = inr "None".
Proof. eexists. split; [reflexivity|]. repeat split. Qed.

(** C2, on [run('echo hello', 'true')]: the first process has no [stdout]
    pipe and the second is started with [stdin=None], not with a stream of
    the first. *)
Theorem second_stage_stdin_is_inherited :
  run.__new__ [CmdStr "echo hello"; CmdStr "true"] defaults demo.world = (inr 1, demo.two_stage) ∧
  (λ p, a_stdin (subprocess.args p)) <$> processes demo.two_stage = [Some PIPE; None] ∧
  subprocess.stdout <$> processes demo.two_stage = [None; None].
Proof. repeat split. Qed.

(** ** The views of an output text *)

(** C9, as the code has it: on ["a b\nc d\n"], [lines] is the three fields
    around the two line feeds, the last one empty, and [qlines] is the
    words of each of the three, the last list empty. *)
Theorem lines_qlines_sample :
  std_output.lines sample_text = ["a b"; "c d"; EmptyString] ∧
  std_output.qlines sample_text = [["a"; "b"]; ["c"; "d"]; []].
Proof. split; reflexivity. Qed.

(** C9, as stated, fails: [qlines] of ["a b\nc d\n"] is not the two word
    lists alone. *)
Lemma qlines_sample_has_empty_tail :
  std_output.qlines sample_text ≠ [["a"; "b"]; ["c"; "d"]].
Proof. discriminate. Qed.

(** ** The construction returns; cached statuses stay integers *)

Lemma new_loop_returns cwd env shell chain args : ∀ xs l w,
  lists w !! chain = Some xs →
  (∀ c, c ∈ args → ∃ argv, tokens (host w) c = inr argv) →
  (∀ n a, ∃ ch, spawn (host w) n a = inr ch) →
  ∃ l' w', run.new_loop cwd env shell chain args l w = (inr l', w').
Proof.
  induction args as [|c rest IH]; intros xs l w Hxs Htok Hspawn; [by eexists _, _|].
  rewrite (new_loop_round _ _ _ _ xs) by done.
  destruct (Htok c) as [argv ->]; [by left|]. cbv zeta.
  destruct (Hspawn (length (processes w)) (stage_args argv (run.l_stdin l) cwd env shell))
    as [ch ->].
  eapply IH; [by apply after_round_chain| |done].
  intros c' Hc'. apply Htok. by right.
Qed.

(** On a host that tokenises every command of a non-empty pipeline and
    starts every process, [run(...)] returns an object. *)
Lemma new_returns args kw w :
  args ≠ [] →
  (∀ c, c ∈ args → ∃ argv, tokens (host w) c = inr argv) →
  (∀ n a, ∃ ch, spawn (host w) n a = inr ch) →
  ∃ r w1, run.__new__ args kw w = (inr r, w1).
Proof.
  intros Hne Htok Hspawn. rewrite new_run.
  destruct (new_loop_returns (kw_cwd kw) (run.merged_env (host w) kw)
              (default false (kw_shell kw)) (length (lists w)) args [] (run.initial kw)
              (with_lists (lists w ++ [[]]) w))
    as (l' & w' & Hloop); [by apply list_lookup_middle|done..|].
  rewrite Hloop.
  eapply new_loop_spec in Hloop as (_ & _ & _ & _ & _ & _ & _ & _ & Hobj & _);
    [|by apply list_lookup_middle].
  rewrite Hobj. destruct args; [done|]. by eexists _, _.
Qed.

Lemma after_communicate_statuses_ok w p o :
  statuses_ok (after_communicate w p o) = statuses_ok w.
Proof. unfold statuses_ok. by rewrite after_communicate_objects. Qed.

(** A read of [status] keeps every cached status an integer. *)
Lemma status_statuses_ok w self x w1 :
  run.status self w = (x, w1) → statuses_ok w = true → statuses_ok w1 = true.
Proof.
  status_cases w self; intros [= _ <-]; try done.
  { by rewrite after_communicate_statuses_ok. }
  rewrite !statuses_ok_lookup. intros Hok a o' Ho'. simpl in Ho'.
  apply list_lookup_insert_Some in Ho' as [(-> & <- & _)|(_ & Ho')]; [done|].
  by eapply Hok.
Qed.

(** Reads of [stdout] and [stderr] change no object. *)
Lemma stdout_objects w self : objects (snd (run.stdout self w)) = objects w.
Proof.
  unfold run.stdout. rewrite bind_run. unfold get_object at 1.
  destruct (objects w !! self) as [o|]; [|done]. rewrite bind_run.
  destruct (processes w !! process o) as [p|] eqn:Hp.
  - rewrite (communicate_run w _ p Hp).
    destruct (communicate_fault _ _ _); simpl; by rewrite after_communicate_objects.
  - by rewrite (communicate_dangling w _ Hp).
Qed.

Lemma stderr_objects w self : objects (snd (run.stderr self w)) = objects w.
Proof.
  unfold run.stderr. rewrite bind_run. unfold get_object at 1.
  destruct (objects w !! self) as [o|]; [|done]. rewrite bind_run.
  destruct (processes w !! process o) as [p|] eqn:Hp.
  - rewrite (communicate_run w _ p Hp).
    destruct (communicate_fault _ _ _); simpl; by rewrite after_communicate_objects.
  - by rewrite (communicate_dangling w _ Hp).
Qed.

Example demo_statuses_ok :
  statuses_ok demo.world = true ∧ statuses_ok demo.piped = true
  ∧ statuses_ok (reads [ReadStdout; ReadStatus; ReadStderr; ReadStatus] 2 demo.piped) = true.
Proof. repeat split. Qed.

(** ** More on the views of an output text *)

Lemma join_cons_char sep c w ws :
  pystr.join sep (String c w :: ws) = String c (pystr.join sep (w :: ws)).
Proof. by destruct ws. Qed.

Lemma split_length sep s : length (pystr.split sep s) = S (occurrences sep s).
Proof.
  induction s as [|c s IH]; [done|]. simpl.
  destruct (Ascii.eqb c sep); simpl; [by rewrite IH|].
  destruct (pystr.split sep s) as [|w ws] eqn:Hs; [by apply split_not_nil in Hs|].
  exact IH.
Qed.

Lemma split_fields_without sep s :
  Forall (λ f, pystr.contains sep f = false) (pystr.split sep s).
Proof.
  induction s as [|c s IH]; [by repeat constructor|]. simpl.
  destruct (Ascii.eqb c sep) eqn:Hc; [by constructor|].
  destruct (pystr.split sep s) as [|w ws] eqn:Hs; [by apply split_not_nil in Hs|].
  inversion IH as [|? ? Hw Hws]; subst. constructor; [|done].
  unfold pystr.contains in *. simpl. rewrite Hw.
  rewrite Ascii.eqb_sym, Hc. done.
Qed.

Lemma append_cons c s t : (String c s +:+ t)%string = String c (s +:+ t).
Proof. reflexivity. Qed.

Lemma append_empty_r s : (s +:+ EmptyString)%string = s.
Proof. induction s as [|c s IH]; [done|]. by rewrite append_cons, IH. Qed.

Lemma concat_cons_field w ws :
  String.concat EmptyString (pystr.cons_field w ws) = (w +:+ String.concat EmptyString ws)%string.
Proof.
  destruct w as [|c w]; [done|]. unfold pystr.cons_field.
  destruct ws; simpl; [by rewrite append_empty_r|done].
Qed.

Lemma Forall_cons_field (P : string → Prop) w ws :
  (w ≠ EmptyString → P w) → Forall P ws → Forall P (pystr.cons_field w ws).
Proof. destruct w; [done|]. intros Hw Hws. constructor; [by apply Hw|done]. Qed.

(** The facts [split_ws] rests on, for the field at the head and the fields
    after it. *)
Lemma fields_spec s :
  let '(w, ws) := pystr.fields s in
  no_space w = true ∧
  Forall (λ f, f ≠ EmptyString ∧ no_space f = true) ws ∧
  (w +:+ String.concat EmptyString ws = without_spaces s)%string.
Proof.
  induction s as [|c s IH]; [by repeat split|]. simpl.
  destruct (pystr.fields s) as [w ws]. destruct IH as (Hw & Hws & Hcat).
  destruct (pystr.is_space c) eqn:Hc.
  - split; [done|]. split; [by apply Forall_cons_field|].
    by rewrite concat_cons_field.
  - simpl. rewrite Hc. repeat split; try done. by rewrite append_cons, Hcat.
Qed.

Lemma split_ws_spec s :
  Forall (λ f, f ≠ EmptyString ∧ no_space f = true) (pystr.split_ws s) ∧
  String.concat EmptyString (pystr.split_ws s) = without_spaces s.
Proof.
  unfold pystr.split_ws. pose proof (fields_spec s) as H.
  destruct (pystr.fields s) as [w ws]. destruct H as (Hw & Hws & Hcat).
  split; [by apply Forall_cons_field|]. by rewrite concat_cons_field.
Qed.

Lemma contains_false_occurrences c s : pystr.contains c s = false → occurrences c s = 0.
Proof.
  unfold pystr.contains. induction s as [|c' s IH]; [done|]. simpl.
  rewrite Ascii.eqb_sym. destruct (Ascii.eqb c' c); [done|]. exact IH.
Qed.

(** X1: joining the [lines] of a text with line feeds gives the text
    back. *)
Theorem lines_join_round_trip s :
  pystr.join (String pystr.LF EmptyString) (std_output.lines s) = s.
Proof.
  unfold std_output.lines. induction s as [|c s IH]; [done|]. simpl.
  destruct (pystr.split pystr.LF s) as [|w ws] eqn:Hs; [by apply split_not_nil in Hs|].
  destruct (Ascii.eqb c pystr.LF) eqn:Hc.
  - apply Ascii.eqb_eq in Hc as ->. simpl in *. by rewrite IH.
  - by rewrite join_cons_char, IH.
Qed.

(** X2: [lines] and [qlines] have one entry more than the text has line
    feeds; neither is ever empty. *)
Theorem lines_count s :
  length (std_output.lines s) = S (occurrences pystr.LF s) ∧
  length (std_output.qlines s) = S (occurrences pystr.LF s).
Proof.
  unfold std_output.qlines, std_output.lines.
  by rewrite length_map, split_length.
Qed.

(** X3: no entry of [lines] holds a line feed. *)
Theorem lines_have_no_line_feed s :
  Forall (λ l, occurrences pystr.LF l = 0) (std_output.lines s).
Proof.
  eapply Forall_impl; [apply split_fields_without|].
  intros l Hl. by apply contains_false_occurrences.
Qed.

(** X4: every word of [qlines] is non-empty and holds no white space. *)
Theorem qlines_words s :
  Forall (Forall (λ word, word ≠ EmptyString ∧ no_space word = true)) (std_output.qlines s).
Proof.
  unfold std_output.qlines. apply Forall_fmap, Forall_true.
  intros l. apply split_ws_spec.
Qed.

(** X5: the words [qlines] gives for a line, put together, are the line
    without its white space: [qlines] drops white space and nothing else. *)
Theorem qlines_keep_all_but_spaces s :
  Forall2 (λ l words, String.concat EmptyString words = without_spaces l)
    (std_output.lines s) (std_output.qlines s).
Proof.
  unfold std_output.qlines. apply Forall2_fmap_r, Forall_Forall2_diag, Forall_true.
  intros l. apply split_ws_spec.
Qed.

(** ** More on [create_process] *)

Lemma create_process_any c stdin cwd env shell capture kwargs w :
  run.create_process c stdin cwd env shell capture kwargs w =
    if capture && (bool_decide (is_Some (kw_stdout kwargs))
                   || bool_decide (is_Some (kw_stderr kwargs)))
    then (inl (ValueError "capture_output will override stdout/stderr kwargs"), w)
    else
      match tokens (host w) c with
      | inl e => (inl (of_host e), w)
      | inr argv =>
          let a := popen_args argv stdin cwd env shell capture kwargs in
          match spawn (host w) (length (processes w)) a with
          | inl e => (inl (of_host e), w)
          | inr ch =>
              (inr (length (processes w)),
               with_processes (processes w ++ [subprocess.started (length (processes w)) a ch]) w)
          end
      end.
Proof.
  unfold run.create_process. rewrite bind_run.
  destruct capture; simpl;
    [destruct (bool_decide (is_Some (kw_stdout kwargs)) || bool_decide (is_Some (kw_stderr kwargs)));
       [done|]|];
    rewrite ?ret_run, bind_run, tokens_of_run;
    (destruct (tokens (host w) c) as [e|argv]; [done|]);
    unfold Popen; rewrite bind_run; unfold get_host at 1, new_process at 1; simpl;
    unfold popen_args; by destruct (spawn _ _ _).
Qed.

(** X6: when [create_process] raises, nothing has been started: the world
    is as before. What it raises is its own [ValueError] on
    [capture_output], or what [shlex.split] or [Popen] raised. *)
Theorem create_process_raise_starts_nothing c stdin cwd env shell capture kwargs w e w1 :
  run.create_process c stdin cwd env shell capture kwargs w = (inl e, w1) →
  w1 = w ∧
  (e = ValueError "capture_output will override stdout/stderr kwargs" ∨ ∃ he, e = of_host he).
Proof.
  rewrite create_process_any.
  destruct (capture && _); [intros [= <- <-]; by auto|].
  destruct (tokens (host w) c) as [he|argv]; [intros [= <- <-]; by eauto|].
  cbv zeta. destruct (spawn _ _ _) as [he|ch]; [intros [= <- <-]; by eauto|done].
Qed.

Lemma create_process_raise_starts_nothing_witness :
  snd (run.create_process (CmdStr "no-such-program") None None ∅ false false no_kwargs demo.world)
  = demo.world ∧
  (OSError "No such file or directory" = ValueError "capture_output will override stdout/stderr kwargs"
   ∨ ∃ he, OSError "No such file or directory" = of_host he).
Proof.
  apply (create_process_raise_starts_nothing (CmdStr "no-such-program") None None ∅ false false
           no_kwargs demo.world).
  reflexivity.
Defined.

(** X7: with [capture_output] and a [stdout=] or [stderr=] keyword,
    [create_process] raises its [ValueError] whatever the command is, also
    one that [shlex.split] or [Popen] would refuse, and starts nothing. *)
Theorem capture_output_refuses_stream_keywords c stdin cwd env shell kwargs w :
  is_Some (kw_stdout kwargs) ∨ is_Some (kw_stderr kwargs) →
  run.create_process c stdin cwd env shell true kwargs w
  = (inl (ValueError "capture_output will override stdout/stderr kwargs"), w).
Proof.
  intros H. rewrite create_process_any. simpl.
  destruct (bool_decide (is_Some (kw_stdout kwargs))) eqn:H1; [done|].
  destruct (bool_decide (is_Some (kw_stderr kwargs))) eqn:H2; [done|].
  apply bool_decide_eq_false in H1, H2. tauto.
Qed.

Lemma capture_output_refuses_stream_keywords_witness :
  run.create_process (CmdStr "echo 'unterminated") None None ∅ false true
    {| kw_stdout := None; kw_stderr := Some (Some PIPE) |} demo.world
  = (inl (ValueError "capture_output will override stdout/stderr kwargs"), demo.world).
Proof.
  apply (capture_output_refuses_stream_keywords (CmdStr "echo 'unterminated") None None ∅ false
           {| kw_stdout := None; kw_stderr := Some (Some PIPE) |} demo.world).
  right. by eexists.
Defined.

(** X8: when [create_process] returns, it has started exactly one process,
    whose handle it returns, and changed nothing else. The process got the
    tokens of the command ([shlex.split] of a string, a sequence as it is),
    the [stdin], [cwd], [env] and [shell] given, text streams without
    buffering, and for [stdout] and [stderr] pipes with [capture_output],
    otherwise the keywords; it has not been waited for. *)
Theorem create_process_starts_one c stdin cwd env shell capture kwargs w h w1 :
  run.create_process c stdin cwd env shell capture kwargs w = (inr h, w1) →
  h = length (processes w) ∧
  ∃ argv ch,
    tokens (host w) c = inr argv ∧
    spawn (host w) h (popen_args argv stdin cwd env shell capture kwargs) = inr ch ∧
    processes w1
      = processes w ++ [subprocess.started h (popen_args argv stdin cwd env shell capture kwargs) ch] ∧
    objects w1 = objects w ∧ lists w1 = lists w ∧ host w1 = host w ∧
    subprocess.returncode <$> processes w1 !! h = Some None ∧
    communicate_calls w1 h = Some 0.
Proof.
  rewrite create_process_any.
  destruct (capture && _); [done|].
  destruct (tokens (host w) c) as [he|argv]; [done|].
  cbv zeta. destruct (spawn _ _ _) as [he|ch] eqn:Hspawn; [done|].
  intros [= <- <-]. split; [done|]. exists argv, ch. simpl.
  unfold communicate_calls. simpl. rewrite list_lookup_middle by done. done.
Qed.

Lemma create_process_starts_one_witness :
  0 = length (processes demo.world) ∧
  ∃ argv ch,
    tokens (host demo.world) (CmdSeq ["echo"; "a b"]) = inr argv ∧
    spawn (host demo.world) 0 (popen_args argv (Some PIPE) None ∅ false true no_kwargs) = inr ch ∧
    processes (snd (run.create_process (CmdSeq ["echo"; "a b"]) (Some PIPE) None ∅ false true
                      no_kwargs demo.world))
      = processes demo.world
        ++ [subprocess.started 0 (popen_args argv (Some PIPE) None ∅ false true no_kwargs) ch] ∧
    objects (snd (run.create_process (CmdSeq ["echo"; "a b"]) (Some PIPE) None ∅ false true
                    no_kwargs demo.world)) = objects demo.world ∧
    lists (snd (run.create_process (CmdSeq ["echo"; "a b"]) (Some PIPE) None ∅ false true
                  no_kwargs demo.world)) = lists demo.world ∧
    host (snd (run.create_process (CmdSeq ["echo"; "a b"]) (Some PIPE) None ∅ false true
                 no_kwargs demo.world)) = host demo.world ∧
    subprocess.returncode
      <$> processes (snd (run.create_process (CmdSeq ["echo"; "a b"]) (Some PIPE) None ∅ false
                            true no_kwargs demo.world)) !! 0 = Some None ∧
    communicate_calls (snd (run.create_process (CmdSeq ["echo"; "a b"]) (Some PIPE) None ∅ false
                              true no_kwargs demo.world)) 0 = Some 0.
Proof.
  apply (create_process_starts_one (CmdSeq ["echo"; "a b"]) (Some PIPE) None ∅ false true
           no_kwargs demo.world 0).
  reflexivity.
Defined.



(** ** More on pipeline construction *)

(** Whatever the loop ends with, it keeps what was there before, raises only
    what a launch raised, and after one round or more [stdin] is [None]. *)
Lemma new_loop_keeps cwd env shell chain args : ∀ xs l w x w',
  lists w !! chain = Some xs →
  run.new_loop cwd env shell chain args l w = (x, w') →
  host w' = host w ∧
  objects w `prefix_of` objects w' ∧
  processes w `prefix_of` processes w' ∧
  (∀ a, a < length (lists w) → a ≠ chain → lists w' !! a = lists w !! a) ∧
  (∀ e, x = inl e → args ≠ [] ∧ ∃ he, e = of_host he) ∧
  (∀ l', x = inr l' → run.l_stdin l' = match args with [] => run.l_stdin l | _ => None end).
Proof.
  induction args as [|c rest IH]; intros xs l w x w' Hxs Hrun.
  { injection Hrun as <- <-. do 4 (split; [done|]). split; [done|]. by intros l' [= <-]. }
  rewrite (new_loop_round _ _ _ _ xs) in Hrun by done.
  assert (∀ he : host_error,
            host w = host w ∧ objects w `prefix_of` objects w ∧
            processes w `prefix_of` processes w ∧
            (∀ a, a < length (lists w) → a ≠ chain → lists w !! a = lists w !! a) ∧
            (∀ e, inl (of_host he) = @inl exn run.Locals e →
                  c :: rest ≠ [] ∧ ∃ he', e = of_host he') ∧
            (∀ l', inl (of_host he) = @inr exn run.Locals l' → run.l_stdin l' = None))
    as Hraise.
  { intros he. do 4 (split; [done|]). split; [|done].
    intros e [= <-]. split; [done|]. by eexists. }
  destruct (tokens (host w) c) as [he|argv]; [injection Hrun as <- <-; apply Hraise|].
  cbv zeta in Hrun.
  destruct (spawn _ _ _) as [he|ch]; [injection Hrun as <- <-; apply Hraise|].
  clear Hraise.
  pose proof (lookup_lt_Some _ _ _ Hxs) as Hlt.
  eapply IH in Hrun as (Hh & Hpo & Hpp & Hkeep & Herr & Hin); [|by apply after_round_chain].
  simpl in *. split; [done|]. split; [|split; [|split; [|split]]].
  - etrans; [|exact Hpo]. by apply prefix_app_r.
  - etrans; [|exact Hpp]. by apply prefix_app_r.
  - intros a Ha Hne. rewrite Hkeep by (rewrite ?length_app, ?length_insert; lia).
    rewrite lookup_app_l by (rewrite length_insert; lia).
    by apply list_lookup_insert_ne.
  - intros e He. split; [done|]. by destruct (Herr e He).
  - intros l' Hl'. rewrite (Hin l' Hl'). by destruct rest.
Qed.

(** X10: every stage of a pipeline is started with the same settings: the
    tokens of its own command, [cwd] and [shell] from the keywords ([None]
    and [False] by default), text streams without buffering, and an
    environment in which a key of [kwargs['env']] has the value given there
    and any other key the value of [os.environ]. *)
Theorem stages_launch_settings args kw w r w1 i c :
  run.__new__ args kw w = (inr r, w1) → args !! i = Some c →
  ∃ p, processes w1 !! (length (processes w) + i) = Some p ∧
       tokens (host w) c = inr (a_args (subprocess.args p)) ∧
       a_cwd (subprocess.args p) = kw_cwd kw ∧
       a_shell (subprocess.args p) = default false (kw_shell kw) ∧
       a_universal_newlines (subprocess.args p) = true ∧
       a_bufsize (subprocess.args p) = 0%Z ∧
       ∀ k, a_env (subprocess.args p) !! k
            = match default ∅ (kw_env kw) !! k with
              | Some v => Some v
              | None => os_environ (host w) !! k
              end.
Proof.
  intros Hnew Hc. apply new_spec in Hnew as (_ & _ & _ & _ & _ & _ & _ & _ & _ & Hst).
  destruct (Hst i c Hc) as (argv & ch & Ht & _ & Hp & _).
  eexists. split; [exact Hp|]. simpl. repeat split; try done.
  intros k. unfold run.merged_env. rewrite lookup_union.
  by destruct (default ∅ (kw_env kw) !! k), (os_environ (host w) !! k).
Qed.

Lemma stages_launch_settings_witness :
  ∃ p, processes demo.piped !! (0 + 1) = Some p ∧
       tokens demo.os (CmdSeq ["echo"; "x"]) = inr (a_args (subprocess.args p)) ∧
       a_cwd (subprocess.args p) = None ∧
       a_shell (subprocess.args p) = false ∧
       a_universal_newlines (subprocess.args p) = true ∧
       a_bufsize (subprocess.args p) = 0%Z ∧
       ∀ k, a_env (subprocess.args p) !! k
            = match (∅ : gmap string string) !! k with
              | Some v => Some v
              | None => os_environ demo.os !! k
              end.
Proof.
  apply (stages_launch_settings demo.pipeline defaults demo.world 2 demo.piped 1
           (CmdSeq ["echo"; "x"])); reflexivity.
Defined.

(** X11: a pipeline has exactly one object and one process per command, in
    the order of the commands: the [i]-th new object has the [i]-th command,
    the [i]-th new process and the [pid] of that process; the result is the
    last of them. *)
Theorem one_stage_per_command args kw w r w1 :
  run.__new__ args kw w = (inr r, w1) →
  length (objects w1) = length (objects w) + length args ∧
  length (processes w1) = length (processes w) + length args ∧
  S r = length (objects w1) ∧
  ∀ i c, args !! i = Some c →
    ∃ o p, objects w1 !! (length (objects w) + i) = Some o ∧
           processes w1 !! (length (processes w) + i) = Some p ∧
           command o = c ∧
           process o = length (processes w) + i ∧
           pid o = subprocess.pid p.
Proof.
  intros Hnew.
  apply new_spec in Hnew as (_ & _ & Hlo & _ & Hlp & _ & _ & Hpos & -> & Hst).
  repeat split; [done|done|lia|].
  intros i c Hc. destruct (Hst i c Hc) as (argv & ch & _ & _ & Hp & Ho & _).
  eexists _, _. split; [exact Ho|]. split; [exact Hp|]. done.
Qed.

Lemma one_stage_per_command_witness :
  length (objects demo.piped) = length (objects demo.world) + length demo.pipeline ∧
  length (processes demo.piped) = length (processes demo.world) + length demo.pipeline ∧
  3 = length (objects demo.piped) ∧
  ∀ i c, demo.pipeline !! i = Some c →
    ∃ o p, objects demo.piped !! (length (objects demo.world) + i) = Some o ∧
           processes demo.piped !! (length (processes demo.world) + i) = Some p ∧
           command o = c ∧
           process o = length (processes demo.world) + i ∧
           pid o = subprocess.pid p.
Proof.
  apply (one_stage_per_command demo.pipeline defaults demo.world 2 demo.piped). reflexivity.
Defined.

(** X12: construction reads nothing and waits for nothing: when [run(...)]
    returns, no stage has a cached status, and no process of the pipeline
    has been communicated with or has a return code. *)
Theorem construction_is_lazy args kw w r w1 i c :
  run.__new__ args kw w = (inr r, w1) → args !! i = Some c →
  ∃ o p, objects w1 !! (length (objects w) + i) = Some o ∧
         processes w1 !! (length (processes w) + i) = Some p ∧
         _status o = None ∧
         subprocess.returncode p = None ∧
         subprocess.communicated p = 0.
Proof.
  intros Hnew Hc. apply new_spec in Hnew as (_ & _ & _ & _ & _ & _ & _ & _ & _ & Hst).
  destruct (Hst i c Hc) as (argv & ch & _ & _ & Hp & Ho & _).
  eexists _, _. split; [exact Ho|]. split; [exact Hp|]. done.
Qed.

Lemma construction_is_lazy_witness :
  ∃ o p, objects demo.piped !! (0 + 2) = Some o ∧
         processes demo.piped !! (0 + 2) = Some p ∧
         _status o = None ∧
         subprocess.returncode p = None ∧
         subprocess.communicated p = 0.
Proof.
  apply (construction_is_lazy demo.pipeline defaults demo.world 2 demo.piped 2 (CmdStr "false"));
    reflexivity.
Defined.

(** X13: whether [run(...)] returns or raises, it keeps every object,
    process and list that was there before as it was: pipelines share
    nothing with earlier ones. *)
Theorem construction_keeps_the_rest args kw w :
  host (snd (run.__new__ args kw w)) = host w ∧
  objects w `prefix_of` objects (snd (run.__new__ args kw w)) ∧
  processes w `prefix_of` processes (snd (run.__new__ args kw w)) ∧
  ∀ a, a < length (lists w) → lists (snd (run.__new__ args kw w)) !! a = lists w !! a.
Proof.
  rewrite new_run.
  destruct (run.new_loop _ _ _ _ _ _ _) as [x w'] eqn:Hloop.
  eapply (new_loop_keeps _ _ _ _ _ []) in Hloop as (Hh & Hpo & Hpp & Hkeep & _);
    [|by apply list_lookup_middle].
  assert (snd (match x with
               | inl e => (inl e, w')
               | inr l => match run.l_obj l with
                          | Some obj => (inr obj, w')
                          | None => (inl (UnboundLocalError "obj"), w')
                          end
               end : (exn + nat) * World) = w') as ->.
  { destruct x as [e|l]; [done|]. by destruct (run.l_obj l). }
  simpl in *. repeat split; try done.
  intros a Ha. rewrite Hkeep by (rewrite ?length_app; simpl; lia).
  by apply lookup_app_l.
Qed.

(** X14: a command that cannot be launched stops the pipeline there: after
    the stages of [pre], which leave the world [w1], a command whose launch
    the host refuses makes [run(...)] raise that error in the world [w1].
    The stages of [pre] stay as they are, started and not waited for; no
    object is made for the failed command and nothing after it is started. *)
Theorem failed_launch_stops_the_pipeline pre c post kw w r w1 e :
  run.__new__ pre kw w = (inr r, w1) →
  launch_error (host w) (length (processes w1)) c None (kw_cwd kw)
    (run.merged_env (host w) kw) (default false (kw_shell kw)) = Some e →
  run.__new__ (pre ++ c :: post) kw w = (inl (of_host e), w1).
Proof.
  intros Hpre Hfail. rewrite new_run in Hpre.
  rewrite new_run, (new_loop_app _ _ _ _ _ _ []) by by apply list_lookup_middle.
  destruct (run.new_loop _ _ _ _ pre _ _) as [[e'|l1] w1'] eqn:Hloop; [done|].
  assert (w1' = w1 ∧ pre ≠ []) as [-> Hne].
  { destruct pre; [by injection Hloop as <- <-|]. split; [|done].
    destruct (run.l_obj l1); [by injection Hpre as _ <-|done]. }
  pose proof Hloop as (Hh & _ & _ & _ & _ & Hin)%(new_loop_keeps _ _ _ _ _ []);
    [|by apply list_lookup_middle].
  eapply (new_loop_spec _ _ _ _ _ []) in Hloop as (_ & _ & _ & _ & _ & _ & Hch & _);
    [|by apply list_lookup_middle].
  rewrite (new_loop_round _ _ _ _ _ _ _ _ _ Hch).
  unfold launch_error in Hfail. simpl in Hh. rewrite Hh.
  rewrite (Hin l1 eq_refl). destruct pre; [done|].
  destruct (tokens (host w) c) as [he|argv]; [by injection Hfail as ->|]. cbv zeta.
  destruct (spawn _ _ _) as [he|ch]; [by injection Hfail as ->|done].
Qed.

Lemma failed_launch_stops_the_pipeline_witness :
  run.__new__ ([CmdStr "echo hello"] ++ CmdStr "echo 'unterminated" :: [CmdStr "true"])
    defaults demo.world
  = (inl (of_host (HostValueError "No closing quotation")), demo.echo_hello).
Proof.
  apply (failed_launch_stops_the_pipeline [CmdStr "echo hello"] (CmdStr "echo 'unterminated")
           [CmdStr "true"] defaults demo.world 0 demo.echo_hello); reflexivity.
Defined.

(** X15: what [run(...)] can raise: the [UnboundLocalError] exactly when
    there is no command, and otherwise only what [shlex.split] or [Popen]
    raised for one of the commands. *)
Theorem construction_errors args kw w e w1 :
  run.__new__ args kw w = (inl e, w1) →
  (args = [] ∧ e = UnboundLocalError "obj") ∨ (args ≠ [] ∧ ∃ he, e = of_host he).
Proof.
  rewrite new_run.
  destruct (run.new_loop _ _ _ _ _ _ _) as [[e'|l] w'] eqn:Hloop.
  - intros [= <- <-]. right.
    eapply (new_loop_keeps _ _ _ _ _ []) in Hloop as (_ & _ & _ & _ & Herr & _);
      [|by apply list_lookup_middle].
    by apply Herr.
  - eapply (new_loop_spec _ _ _ _ _ []) in Hloop as (_ & _ & _ & _ & _ & _ & _ & _ & Hobj & _);
      [|by apply list_lookup_middle].
    rewrite Hobj. destruct args; [|done]. simpl. intros [= <- _]. by left.
Qed.

Lemma construction_errors_witness :
  ([CmdStr "no-such-program"] = [] ∧ OSError "No such file or directory" = UnboundLocalError "obj")
  ∨ ([CmdStr "no-such-program"] ≠ [] ∧ ∃ he, OSError "No such file or directory" = of_host he).
Proof.
  apply (construction_errors [CmdStr "no-such-program"] defaults demo.world
           (OSError "No such file or directory")
           (snd (run.__new__ [CmdStr "no-such-program"] defaults demo.world))).
  reflexivity.
Defined.

(** ** More on reading a result *)

Lemma after_communicate_other w p o q :
  q ≠ p → processes (after_communicate w p o) !! q = processes w !! q.
Proof.
  intros Hq. unfold after_communicate.
  destruct (communicate_fault _ _ _); simpl; by apply list_lookup_insert_ne.
Qed.

Lemma after_communicate_lists w p o : lists (after_communicate w p o) = lists w.
Proof. unfold after_communicate. by destruct (communicate_fault _ _ _). Qed.

(** The stage [i] of a pipeline, as the reads need it. *)
Lemma new_stage args kw w r w1 i c :
  run.__new__ args kw w = (inr r, w1) → args !! i = Some c →
  host w1 = host w ∧
  ∃ o p, objects w1 !! (length (objects w) + i) = Some o ∧
         processes w1 !! process o = Some p ∧
         process o = length (processes w) + i ∧
         _status o = None ∧ command o = c ∧
         chain o = Some (S (length (lists w)) + i) ∧
         lists w1 !! (S (length (lists w)) + i) = Some (seq (length (objects w)) (S i)) ∧
         subprocess.stdout p = None ∧ subprocess.stderr p = None ∧
         subprocess.communicated p = 0.
Proof.
  intros Hnew Hc.
  pose proof Hnew as (Hh & _)%new_spec. split; [done|].
  destruct (new_stage_object _ _ _ _ _ _ _ Hnew Hc) as (o & Ho & Hcmd & _ & Hs & Hproc & Hch & Hl).
  destruct (new_stage_process _ _ _ _ _ _ _ Hnew Hc) as (p & Hp & _ & _ & _ & Hout & Herr & Hn & _).
  exists o, p. rewrite Hproc. done.
Qed.

(** X16: the first read of [status] on any stage of a pipeline calls
    [communicate()] once on the process of that stage and gives the exit
    code of its child, unless the host makes the call raise. *)
Theorem stage_status_is_exit_code args kw w r w1 i c :
  run.__new__ args kw w = (inr r, w1) → args !! i = Some c →
  communicate_fault (host w) (length (processes w) + i) 0 = None →
  ∃ p, processes w1 !! (length (processes w) + i) = Some p ∧
       fst (run.status (length (objects w) + i) w1)
         = inr (Some (child_exit (subprocess.child p))) ∧
       communicate_calls (snd (run.status (length (objects w) + i) w1))
         (length (processes w) + i) = Some 1.
Proof.
  intros Hnew Hc Hfault.
  destruct (new_stage _ _ _ _ _ _ _ Hnew Hc)
    as (Hh & o & p & Ho & Hp & Hproc & Hs & _ & _ & _ & _ & _ & Hn).
  exists p. rewrite <- Hproc. split; [done|].
  rewrite (status_first w1 _ o p Ho Hs Hp), Hh, Hn, Hproc, Hfault. split; [done|].
  simpl. unfold communicate_calls. simpl. rewrite <- Hproc.
  pose proof (after_communicate_calls w1 (process o) p Hp) as Hcalls.
  unfold communicate_calls in Hcalls. by rewrite Hcalls, Hn.
Qed.

Lemma stage_status_is_exit_code_witness :
  ∃ p, processes demo.piped !! (0 + 0) = Some p ∧
       fst (run.status (0 + 0) demo.piped) = inr (Some (child_exit (subprocess.child p))) ∧
       communicate_calls (snd (run.status (0 + 0) demo.piped)) (0 + 0) = Some 1.
Proof.
  apply (stage_status_is_exit_code demo.pipeline defaults demo.world 2 demo.piped 0
           (CmdStr "echo hello")); reflexivity.
Defined.

Lemma void_world {A} (m : M A) w : snd ((m ;; mret tt) w) = snd (m w).
Proof. rewrite bind_run. by destruct (m w) as [[?|?] ?]. Qed.

Lemma stdout_dangling w self o :
  objects w !! self = Some o → processes w !! process o = None →
  run.stdout self w = (inl DanglingReference, w).
Proof.
  intros Ho Hp. unfold run.stdout. rewrite bind_run. unfold get_object at 1.
  by rewrite Ho, bind_run, (communicate_dangling w _ Hp).
Qed.

Lemma stderr_dangling w self o :
  objects w !! self = Some o → processes w !! process o = None →
  run.stderr self w = (inl DanglingReference, w).
Proof.
  intros Ho Hp. unfold run.stderr. rewrite bind_run. unfold get_object at 1.
  by rewrite Ho, bind_run, (communicate_dangling w _ Hp).
Qed.

(** X17: a read of [status], [stdout] or [stderr] on an object touches no
    process but the one of that object, no list, and not the host: the
    other stages of a pipeline are never waited for by reading one. *)
Theorem reads_touch_one_process w self o rd :
  objects w !! self = Some o →
  host (snd (read rd self w)) = host w ∧
  lists (snd (read rd self w)) = lists w ∧
  ∀ q, q ≠ process o → processes (snd (read rd self w)) !! q = processes w !! q.
Proof.
  intros Ho.
  assert (∀ p, host (after_communicate w (process o) p) = host w ∧
               lists (after_communicate w (process o) p) = lists w ∧
               ∀ q, q ≠ process o →
                 processes (after_communicate w (process o) p) !! q = processes w !! q) as Hafter.
  { intros p. rewrite after_communicate_host, after_communicate_lists.
    do 2 (split; [done|]). intros q Hq. by apply after_communicate_other. }
  destruct rd; simpl; rewrite void_world.
  - destruct (_status o) as [s|] eqn:Hs; [by rewrite (status_cached w self o s Ho Hs)|].
    destruct (processes w !! process o) as [p|] eqn:Hp;
      [|by rewrite (status_first_dangling w self o Ho Hs Hp)].
    rewrite (status_first w self o p Ho Hs Hp).
    destruct (communicate_fault _ _ _); simpl; apply Hafter.
  - destruct (processes w !! process o) as [p|] eqn:Hp;
      [|by rewrite (stdout_dangling w self o Ho Hp)].
    rewrite (stdout_run w self o p Ho Hp). apply Hafter.
  - destruct (processes w !! process o) as [p|] eqn:Hp;
      [|by rewrite (stderr_dangling w self o Ho Hp)].
    rewrite (stderr_run w self o p Ho Hp). apply Hafter.
Qed.

Lemma reads_touch_one_process_witness :
  host (snd (read ReadStatus 2 demo.piped)) = host demo.piped ∧
  lists (snd (read ReadStatus 2 demo.piped)) = lists demo.piped ∧
  ∀ q, q ≠ 2 → processes (snd (read ReadStatus 2 demo.piped)) !! q = processes demo.piped !! q.
Proof.
  apply (reads_touch_one_process demo.piped 2
           (stage_object (CmdStr "false") 2 4002 3) ReadStatus).
  reflexivity.
Defined.

(** X18: the reads never change what an object is: after a read on [self],
    every object still has its text, process, pid, command and chain. Only
    a read of [status], and only on [self], can change an object at all (it
    sets [_status]); [stdout] and [stderr] change no object, so they cache
    nothing. *)
Theorem reads_mutate_only_the_status w self rd a o :
  objects w !! a = Some o →
  ∃ o1, objects (snd (read rd self w)) !! a = Some o1 ∧
        text o1 = text o ∧ process o1 = process o ∧ pid o1 = pid o ∧
        command o1 = command o ∧ chain o1 = chain o ∧
        (a ≠ self ∨ rd ≠ ReadStatus → o1 = o).
Proof.
  intros Ha. destruct rd; simpl; rewrite void_world.
  - destruct (objects w !! self) as [o'|] eqn:Ho; [|rewrite (status_dangling w self Ho); by eauto 10].
    destruct (_status o') as [s|] eqn:Hs; [rewrite (status_cached w self o' s Ho Hs); by eauto 10|].
    destruct (processes w !! process o') as [p|] eqn:Hp;
      [|rewrite (status_first_dangling w self o' Ho Hs Hp); by eauto 10].
    rewrite (status_first w self o' p Ho Hs Hp).
    destruct (communicate_fault _ _ _); simpl.
    { rewrite after_communicate_objects. by eauto 10. }
    destruct (decide (a = self)) as [->|Hne].
    + rewrite Ho in Ha. injection Ha as ->.
      rewrite list_lookup_insert_eq by by eapply lookup_lt_Some.
      eexists. split; [done|]. simpl. repeat split; try done. by intros [|].
    + rewrite list_lookup_insert_ne by done. by eauto 10.
  - rewrite stdout_objects. by eauto 10.
  - rewrite stderr_objects. by eauto 10.
Qed.

Lemma reads_mutate_only_the_status_witness :
  ∃ o1, objects (snd (read ReadStatus 0 demo.echo_hello)) !! 0 = Some o1 ∧
        text o1 = "echo hello" ∧ process o1 = 0 ∧ pid o1 = 4000 ∧
        command o1 = CmdStr "echo hello" ∧ chain o1 = Some 1 ∧
        (0 ≠ 0 ∨ ReadStatus ≠ ReadStatus → o1 = stage_object (CmdStr "echo hello") 0 4000 1).
Proof.
  apply (reads_mutate_only_the_status demo.echo_hello 0 ReadStatus 0
           (stage_object (CmdStr "echo hello") 0 4000 1)).
  reflexivity.
Defined.

(** X19: once [status] can be read, [check_returncode] can be called
    again and again: the second call gives what the first gave, the same
    [CalledProcessError] or the same return, and changes nothing. *)
Theorem check_returncode_twice w self v w0 :
  run.status self w = (inr v, w0) →
  run.check_returncode self (snd (run.check_returncode self w))
  = run.check_returncode self w.
Proof.
  intros Hfirst. rewrite (check_returncode_run w), Hfirst.
  destruct (status_leaves_cache _ _ _ _ Hfirst) as (o1 & Ho1 & Hs1).
  rewrite Ho1.
  assert (run.check_returncode self w0
          = (if bool_decide (v ≠ Some 0%Z) then inl (CalledProcessError v (command o1))
             else inr (), w0)) as Hsecond.
  { rewrite check_returncode_run, (status_cached w0 self o1 v Ho1 Hs1), Ho1.
    by case_bool_decide. }
  case_bool_decide; simpl; by rewrite Hsecond.
Qed.

Lemma check_returncode_twice_witness :
  run.check_returncode 0 (snd (run.check_returncode 0 demo.exits_1))
  = run.check_returncode 0 demo.exits_1.
Proof.
  apply (check_returncode_twice demo.exits_1 0 (Some 1%Z) (snd (run.status 0 demo.exits_1))).
  reflexivity.
Defined.

(** ** More on [__repr__] *)

Lemma commands_of_world addrs : ∀ w, snd (run.commands_of addrs w) = w.
Proof.
  induction addrs as [|a addrs IH]; intros w; [done|].
  simpl. rewrite bind_run. unfold get_object at 1.
  destruct (objects w !! a); [|done]. rewrite bind_run.
  specialize (IH w). by destruct (run.commands_of addrs w) as [[?|?] ?]; simpl in IH; subst.
Qed.

(** X20: [__repr__] changes nothing, on any object of any world, whether it
    returns or raises: it starts nothing, waits for nothing and reads no
    output. *)
Theorem repr_changes_nothing w self : snd (run.__repr__ self w) = w.
Proof.
  unfold run.__repr__. rewrite bind_run. unfold get_object at 1.
  destruct (objects w !! self) as [o|]; [|done]. rewrite bind_run.
  destruct (chain o) as [c|]; [|done].
  unfold get_list at 1. destruct (lists w !! c) as [addrs|]; [|done].
  rewrite bind_run. pose proof (commands_of_world addrs w) as Hw.
  by destruct (run.commands_of addrs w) as [[?|?] ?]; simpl in Hw; subst.
Qed.

(** X21: every stage of a pipeline has a [repr] of its own: that of stage
    [i] shows the commands up to its own, joined by [" | "]. *)
Theorem repr_of_a_stage args kw w r w1 i c :
  run.__new__ args kw w = (inr r, w1) → args !! i = Some c →
  run.__repr__ (length (objects w) + i) w1
  = (inr (pystr.join " | " (run.display <$> take (S i) args)), w1).
Proof.
  intros Hnew Hc.
  destruct (new_stage _ _ _ _ _ _ _ Hnew Hc)
    as (_ & o & p & Ho & _ & _ & _ & _ & Hchain & Hl & _).
  unfold run.__repr__. rewrite bind_run. unfold get_object at 1. rewrite Ho, Hchain, bind_run.
  unfold get_list at 1. rewrite Hl, bind_run.
  rewrite (commands_of_run w1 _ (take (S i) args)); [done|].
  pose proof (lookup_lt_Some _ _ _ Hc) as Hlt.
  apply Forall2_same_length_lookup. split; [rewrite length_seq, length_take; lia|].
  intros j a c' [-> Hj]%lookup_seq Hc'.
  rewrite lookup_take_lt in Hc' by lia.
  destruct (new_stage_object _ _ _ _ _ _ _ Hnew Hc') as (o' & Ho' & Hcmd & _). eauto.
Qed.

Lemma repr_of_a_stage_witness :
  run.__repr__ (0 + 1) demo.piped = (inr "echo hello | echo x", demo.piped).
Proof.
  apply (repr_of_a_stage demo.pipeline defaults demo.world 2 demo.piped 1
           (CmdSeq ["echo"; "x"])); reflexivity.
Defined.

(** X22: the processes of a pipeline are started without pipes for their
    output, so on every stage [stdout] and [stderr] are the text ["None"],
    whatever the child wrote, unless the host makes [communicate()] raise. *)
Theorem stage_outputs_are_None args kw w r w1 i c :
  run.__new__ args kw w = (inr r, w1) → args !! i = Some c →
  communicate_fault (host w) (length (processes w) + i) 0 = None →
  fst (run.stdout (length (objects w) + i) w1) = inr "None" ∧
  fst (run.stderr (length (objects w) + i) w1) = inr "None".
Proof.
  intros Hnew Hc Hfault.
  destruct (new_stage _ _ _ _ _ _ _ Hnew Hc)
    as (Hh & o & p & Ho & Hp & Hproc & _ & _ & _ & _ & Hout & Herr & Hn).
  rewrite (stdout_run w1 _ o p Ho Hp), (stderr_run w1 _ o p Ho Hp).
  by rewrite Hh, Hn, Hproc, Hfault, Hout, Herr.
Qed.

Lemma stage_outputs_are_None_witness :
  fst (run.stdout (0 + 1) demo.piped) = inr "None" ∧
  fst (run.stderr (0 + 1) demo.piped) = inr "None".
Proof.
  apply (stage_outputs_are_None demo.pipeline defaults demo.world 2 demo.piped 1
           (CmdSeq ["echo"; "x"])); reflexivity.
Defined.

(** X23: what the first stage reads. Without a [stdin=] keyword it gets a
    pipe of its own ([subprocess.PIPE]), not the standard input of the
    parent; with [stdin=run.stdin] it reads [sys.stdin]; with any other
    value, [None] included, it gets that value. Only in the first case
    does its [Popen] object have a [stdin] pipe. *)
Theorem first_stage_input c rest kw w r w1 :
  run.__new__ (c :: rest) kw w = (inr r, w1) →
  ∃ p, processes w1 !! length (processes w) = Some p ∧
       a_stdin (subprocess.args p)
         = match kw_stdin kw with
           | None => Some PIPE
           | Some given => given
           end ∧
       (kw_stdin kw = Some (Some runmeta.stdin) →
        a_stdin (subprocess.args p) = Some (File sys_stdin)) ∧
       (subprocess.stdin p
         = match a_stdin (subprocess.args p) with
           | Some PIPE => Some (pipe_end (length (processes w)) fd_stdin)
           | _ => None
           end).
Proof.
  intros Hnew.
  apply new_spec in Hnew as (_ & _ & _ & _ & _ & _ & _ & _ & _ & Hst).
  destruct (Hst 0 c eq_refl) as (argv & ch & _ & _ & Hp & _).
  rewrite Nat.add_0_r in Hp. eexists. split; [exact Hp|]. simpl.
  split; [by destruct (kw_stdin kw)|]. split; [by intros ->|done].
Qed.

Lemma first_stage_input_witness :
  ∃ p, processes (snd (run.__new__ (CmdStr "echo hello" :: [CmdStr "true"])
                         {| kw_env := None; kw_cwd := None; kw_shell := None;
                            kw_stdin := Some (Some runmeta.stdin) |} demo.world))
         !! length (processes demo.world) = Some p ∧
       a_stdin (subprocess.args p) = Some runmeta.stdin ∧
       (Some (Some runmeta.stdin) = Some (Some runmeta.stdin) →
        a_stdin (subprocess.args p) = Some (File sys_stdin)) ∧
       (subprocess.stdin p
         = match a_stdin (subprocess.args p) with
           | Some PIPE => Some (pipe_end (length (processes demo.world)) fd_stdin)
           | _ => None
           end).
Proof.
  apply (first_stage_input (CmdStr "echo hello") [CmdStr "true"]
           {| kw_env := None; kw_cwd := None; kw_shell := None;
              kw_stdin := Some (Some runmeta.stdin) |} demo.world 1).
  reflexivity.
Defined.
